(** * sqlcertcache: an autocert.Cache backed by a SQL table

    A shallow embedding of sqlcertcache.go and the properties of its
    New / Get / Put / Delete operations. The source holds two variants
    of the package. The main development embeds the second one, in
    which Cache keeps the certs map in front of the table and the four
    query texts prepared by New; module [V1] embeds the first one, which
    keeps no map and upserts with a single statement.

    Layout:
    - [GoLib]: the pieces of the Go standard library the package calls
      (strings.TrimSpace, fmt.Sprintf, errors, context);
    - [Sql]:   database/sql as seen through *sql.DB: a store of tables,
      the five statements the package sends, a script of driver faults
      and a log of the calls that were made;
    - the package itself: [Cache], [New], [Get], [Put], [Delete];
    - the properties. *)

From Stdlib Require Import ZArith Ascii String List.
From Stdlib Require Strings.Byte.
From stdpp Require Import base gmap strings list.

Open Scope Z_scope.

(** []byte. A nil slice and an empty slice are both the empty list.
    Payloads are treated as values: a caller does not write into a slice
    after handing it to Put or receiving it from Get. *)
Abbreviation bytes := (list Byte.byte).

#[global] Instance byte_eq_dec : EqDecision Byte.byte := Strings.Byte.byte_eq_dec.

(* ===================================================================== *)
(** * The Go library functions used by the package *)
(* ===================================================================== *)

Module GoLib.

(** ** error values

    The sentinels the package compares against or returns, the value built
    by errors.New, the two values of ctx.Err(), and errors that come back
    from the driver or the server. *)
Inductive error : Type :=
| ErrNoRows                     (* sql.ErrNoRows *)
| ErrCacheMiss                  (* autocert.ErrCacheMiss *)
| errors_New (text : string)    (* errors.New(text) *)
| Canceled                      (* context.Canceled *)
| DeadlineExceeded              (* context.DeadlineExceeded *)
| DriverError (text : string).  (* any failure reported by the driver *)

#[global] Instance error_eq_dec : EqDecision error.
Proof. solve_decision. Defined.

(** ** context.Context, as far as database/sql looks at it *)
Inductive Context : Type :=
| Background
| CtxCanceled
| CtxDeadlineExceeded.

Definition ctx_Err (ctx : Context) : option error :=
  match ctx with
  | Background => None
  | CtxCanceled => Some Canceled
  | CtxDeadlineExceeded => Some DeadlineExceeded
  end.

(** ** strings.TrimSpace

    TrimSpace removes leading and trailing white space as defined by
    unicode.IsSpace, reading the string as UTF-8. The white-space code
    points and their encodings are
      U+0009..U+000D, U+0020            one byte
      U+0085, U+00A0                    C2 85, C2 A0
      U+1680                            E1 9A 80
      U+2000..U+200A                    E2 80 80 .. E2 80 8A
      U+2028, U+2029, U+202F            E2 80 A8, E2 80 A9, E2 80 AF
      U+205F                            E2 81 9F
      U+3000                            E3 80 80
    Any other byte sequence decodes to a rune that is not white space. *)

Definition code (a : ascii) : N := N_of_ascii a.

Definition space1 (a : ascii) : bool := Ascii.is_space a.

Definition space2 (a b : ascii) : bool :=
  (code a =? 194)%N && ((code b =? 133)%N || (code b =? 160)%N).

Definition space3 (a b c : ascii) : bool :=
  ((code a =? 225)%N && (code b =? 154)%N && (code c =? 128)%N)
  || ((code a =? 226)%N && (code b =? 128)%N &&
        (((128 <=? code c)%N && (code c <=? 138)%N)
         || (code c =? 168)%N || (code c =? 169)%N || (code c =? 175)%N))
  || ((code a =? 226)%N && (code b =? 129)%N && (code c =? 159)%N)
  || ((code a =? 227)%N && (code b =? 128)%N && (code c =? 128)%N).

(** Dropping white-space runes from the front of a byte sequence. The
    three predicates say which one-, two- and three-byte groups are
    white space; the same loop run over the reversed sequence, with the
    predicates reading their bytes in reverse, trims the other end. *)
Section Trim.
Variable p1 : ascii -> bool.
Variable p2 : ascii -> ascii -> bool.
Variable p3 : ascii -> ascii -> ascii -> bool.

Fixpoint trim_front (l : list ascii) : list ascii :=
  match l with
  | [] => []
  | a :: l1 =>
      if p1 a then trim_front l1
      else match l1 with
           | [] => l
           | b :: l2 =>
               if p2 a b then trim_front l2
               else match l2 with
                    | [] => l
                    | c :: l3 => if p3 a b c then trim_front l3 else l
                    end
           end
  end.
End Trim.

Definition TrimLeftSpace (l : list ascii) : list ascii :=
  trim_front space1 space2 space3 l.

Definition TrimRightSpace (l : list ascii) : list ascii :=
  rev (trim_front space1 (fun b a => space2 a b)
                  (fun c b a => space3 a b c) (rev l)).

Definition TrimSpace (s : string) : string :=
  string_of_list_ascii
    (TrimRightSpace (TrimLeftSpace (list_ascii_of_string s))).

(** ** fmt.Sprintf, for formats whose only verb is %s

    Each %s is replaced by the next operand; a %s with no operand left
    prints %!s(MISSING); every other byte is copied. *)
Fixpoint Sprintf (format : string) (a : list string) : string :=
  match format with
  | EmptyString => EmptyString
  | String c rest =>
      if Ascii.eqb c "%" then
        match rest with
        | EmptyString => "%!(NOVERB)"
        | String v rest' =>
            if Ascii.eqb v "s" then
              match a with
              | x :: a' => x +:+ Sprintf rest' a'
              | [] => "%!s(MISSING)" +:+ Sprintf rest' []
              end
            else String c (String v (Sprintf rest' a))
        end
      else String c (Sprintf rest a)
  end.

End GoLib.
Export GoLib.

(* ===================================================================== *)
(** * database/sql, as reached through *sql.DB *)
(* ===================================================================== *)

Module Sql.

(** A query operand: the package passes the key (a string) and the
    payload (a []byte). *)
Inductive arg : Type :=
| ArgString (s : string)
| ArgBytes (b : bytes).

#[global] Instance arg_eq_dec : EqDecision arg.
Proof. solve_decision. Defined.

(** One call made on the handle: the query text and its operands. *)
Record call : Type := Call { call_query : string; call_args : list arg }.

#[global] Instance call_eq_dec : EqDecision call.
Proof. solve_decision. Defined.

(** What is behind the handle.
    - [tables]: the rows of every table, in the order a sequential scan
      returns them; every table has the two columns (key, data) of the
      schema in [New], key being the primary key;
    - [faults]: what the driver does to the coming calls, one entry per
      call that reaches it ([None]: the call runs; [Some text]: it fails
      with that error and the statement is not run); once the script is
      used up calls run;
    - [rows_affected_err]: drivers need not support Result.RowsAffected;
      [Some text] is a driver whose RowsAffected returns that error;
    - [calls]: every call made on the handle so far, oldest first. *)
Record DB : Type := mkDB {
  tables : gmap string (list (string * bytes));
  faults : list (option string);
  rows_affected_err : option string;
  calls : list call
}.

(** ** The statements *)
Inductive stmt : Type :=
| CreateTable (t : string)   (* create table if not exists t (...) *)
| Select (t : string)        (* SELECT data FROM t *)
| Insert (t : string)        (* INSERT INTO t (key, data) VALUES($1, $2) *)
| Update (t : string)        (* UPDATE t SET data = $2 WHERE key = $1 *)
| DeleteFrom (t : string).   (* DELETE FROM t WHERE key = $1 *)

(** The statements are recognised by their words (white space between
    words is not significant to SQL); a table name is one word. *)
Definition create_words (t : string) : list string :=
  ["create"; "table"; "if"; "not"; "exists"; t; "(";
   "key"; "varchar(400)"; "not"; "null"; "primary"; "key,";
   "data"; "bytea"; "not"; "null"; ");"].
Definition select_words (t : string) : list string :=
  ["SELECT"; "data"; "FROM"; t].
Definition insert_words (t : string) : list string :=
  ["INSERT"; "INTO"; t; "(key,"; "data)"; "VALUES($1,"; "$2)"].
Definition update_words (t : string) : list string :=
  ["UPDATE"; t; "SET"; "data"; "="; "$2"; "WHERE"; "key"; "="; "$1"].
Definition delete_words (t : string) : list string :=
  ["DELETE"; "FROM"; t; "WHERE"; "key"; "="; "$1"].

Definition word_at (ws : list string) (i : nat) : string :=
  default EmptyString (ws !! i).

Definition parse (query : string) : option stmt :=
  let ws := String.words query in
  if decide (ws = create_words (word_at ws 5))
  then Some (CreateTable (word_at ws 5))
  else if decide (ws = select_words (word_at ws 3))
  then Some (Select (word_at ws 3))
  else if decide (ws = insert_words (word_at ws 2))
  then Some (Insert (word_at ws 2))
  else if decide (ws = update_words (word_at ws 1))
  then Some (Update (word_at ws 1))
  else if decide (ws = delete_words (word_at ws 2))
  then Some (DeleteFrom (word_at ws 2))
  else None.

(** ** Running a statement

    The outcome of a statement that ran: the new tables, the rows it
    returns (their data column) and the number of rows it affected. *)
Record outcome : Type := Outcome {
  out_tables : gmap string (list (string * bytes));
  out_rows : list bytes;
  out_affected : Z
}.

Definition has_key (k : string) (r : string * bytes) : bool :=
  bool_decide (r.1 = k).

Definition set_data (k : string) (d : bytes) (r : string * bytes)
  : string * bytes :=
  if has_key k r then (r.1, d) else r.

Definition count_key (k : string) (rows : list (string * bytes)) : Z :=
  Z.of_nat (length (filter (fun r => has_key k r = true) rows)).

Definition run (s : stmt) (args : list arg)
    (tbls : gmap string (list (string * bytes))) : error + outcome :=
  match s, args with
  | CreateTable t, [] =>
      match tbls !! t with
      | Some _ => inr (Outcome tbls [] 0)
      | None => inr (Outcome (<[t := []]> tbls) [] 0)
      end
  | Select t, [] =>
      match tbls !! t with
      | Some rows =>
          inr (Outcome tbls (map snd rows) (Z.of_nat (length rows)))
      | None => inl (DriverError "relation does not exist")
      end
  | Insert t, [ArgString k; ArgBytes d] =>
      match tbls !! t with
      | Some rows =>
          if (400 <? Z.of_nat (String.length k))%Z
          then inl (DriverError "value too long for type character varying(400)")
          else if existsb (has_key k) rows
          then inl (DriverError "duplicate key value violates unique constraint")
          else inr (Outcome (<[t := rows ++ [(k, d)]]> tbls) [] 1)
      | None => inl (DriverError "relation does not exist")
      end
  | Update t, [ArgString k; ArgBytes d] =>
      match tbls !! t with
      | Some rows =>
          inr (Outcome (<[t := map (set_data k d) rows]> tbls) []
                       (count_key k rows))
      | None => inl (DriverError "relation does not exist")
      end
  | DeleteFrom t, [ArgString k] =>
      match tbls !! t with
      | Some rows =>
          inr (Outcome (<[t := filter (fun r => has_key k r = false) rows]> tbls)
                       [] (count_key k rows))
      | None => inl (DriverError "relation does not exist")
      end
  | _, _ => inl (DriverError "wrong number or type of parameters")
  end.

(** One call reaching the driver: the next entry of the fault script
    decides whether it fails; otherwise the text is parsed and run. *)
Definition next_fault (db : DB) : option string * list (option string) :=
  match faults db with
  | [] => (None, [])
  | f :: fs => (f, fs)
  end.

Definition log (db : DB) (query : string) (args : list arg) : DB :=
  mkDB (tables db) (faults db) (rows_affected_err db)
       (calls db ++ [Call query args]).

Definition dispatch (db : DB) (query : string) (args : list arg)
  : (error + outcome) * DB :=
  let '(f, fs) := next_fault db in
  match f with
  | Some text =>
      (inl (DriverError text),
       mkDB (tables db) fs (rows_affected_err db) (calls db))
  | None =>
      match parse query with
      | None =>
          (inl (DriverError "syntax error"),
           mkDB (tables db) fs (rows_affected_err db) (calls db))
      | Some s =>
          match run s args (tables db) with
          | inl e =>
              (inl e, mkDB (tables db) fs (rows_affected_err db) (calls db))
          | inr o =>
              (inr o, mkDB (out_tables o) fs (rows_affected_err db) (calls db))
          end
      end
  end.

(** sql.Result: the package only calls RowsAffected on it. *)
Record Result : Type := mkResult { RowsAffected : Z * option error }.

(** DB.ExecContext. A context that is already done makes the call
    return ctx.Err() before anything is sent. *)
Definition ExecContext (db : DB) (ctx : Context) (query : string)
    (args : list arg) : (error + Result) * DB :=
  let db := log db query args in
  match ctx_Err ctx with
  | Some e => (inl e, db)
  | None =>
      let '(r, db) := dispatch db query args in
      match r with
      | inl e => (inl e, db)
      | inr o =>
          (inr (mkResult
                  match rows_affected_err db with
                  | Some text => (0, Some (DriverError text))
                  | None => (out_affected o, None)
                  end), db)
      end
  end.

(** DB.Exec is ExecContext with the background context. *)
Definition Exec (db : DB) (query : string) (args : list arg)
  : (error + Result) * DB :=
  ExecContext db Background query args.

(** A sql.Row: either the error of the query or its first row; a query
    with no row gives ErrNoRows at Scan. *)
Record Row : Type := mkRow { row_result : error + bytes }.

Definition QueryRowContext (db : DB) (ctx : Context) (query : string)
    (args : list arg) : Row * DB :=
  let db := log db query args in
  match ctx_Err ctx with
  | Some e => (mkRow (inl e), db)
  | None =>
      let '(r, db) := dispatch db query args in
      match r with
      | inl e => (mkRow (inl e), db)
      | inr o =>
          match out_rows o with
          | [] => (mkRow (inl ErrNoRows), db)
          | d :: _ => (mkRow (inr d), db)
          end
      end
  end.

(** Row.Scan(&dest): on success dest receives the column, on
    failure dest is left as it was. *)
Definition Scan (row : Row) (dest : bytes) : bytes * option error :=
  match row_result row with
  | inl e => (dest, Some e)
  | inr d => (d, None)
  end.

End Sql.
Export Sql.

(* ===================================================================== *)
(** * package sqlcertcache *)
(* ===================================================================== *)

(** Cache provides a SQL backend to the autocert cache.

    [conn] is the state of the database behind the handle and [certs]
    the in-memory map; together they are what a method call can change,
    so a method takes the Cache and returns it. The methods hold certsMu
    for their whole body (Get the read lock, Put and Delete the write
    lock), so each call is one atomic step and the lock needs no field. *)
Record Cache : Type := mkCache {
  conn : DB;
  certs : gmap string bytes;
  getQuery : string;
  insertQuery : string;
  updateQuery : string;
  deleteQuery : string
}.

Definition set_conn (c : Cache) (db : DB) : Cache :=
  mkCache db (certs c) (getQuery c) (insertQuery c) (updateQuery c)
          (deleteQuery c).

Definition set_certs (c : Cache) (m : gmap string bytes) : Cache :=
  mkCache (conn c) m (getQuery c) (insertQuery c) (updateQuery c)
          (deleteQuery c).

Definition nl : string := String (ascii_of_nat 10) EmptyString.
Definition tab : string := String (ascii_of_nat 9) EmptyString.

(** The text of the create statement, line by line as in the source. *)
Definition createFormat : string :=
  "create table if not exists %s (" +:+ nl +:+
  tab +:+ tab +:+ "key  varchar(400) not null primary key, " +:+ nl +:+
  tab +:+ tab +:+ "data bytea not null" +:+ nl +:+
  tab +:+ ");".

(** New creates a cache instance. The result is the pair (cache, error)
    together with the database as the call left it. *)
Definition New (conn : DB) (tableName : string)
  : (option Cache * option error) * DB :=
  if decide (TrimSpace tableName = "")
  then ((None, Some (errors_New "tableName must not be empty")), conn)
  else
    let '(r, conn) := Exec conn (Sprintf createFormat [tableName]) [] in
    match r with
    | inl err => ((None, Some err), conn)
    | inr _ =>
        ((Some
            {| conn := conn;
               certs := ∅;
               getQuery := Sprintf "SELECT data FROM %s" [tableName];
               insertQuery :=
                 Sprintf "INSERT INTO %s (key, data) VALUES($1, $2)" [tableName];
               updateQuery :=
                 Sprintf "UPDATE %s SET data = $2 WHERE key = $1" [tableName];
               deleteQuery :=
                 Sprintf "DELETE FROM %s WHERE key = $1" [tableName] |},
          None), conn)
    end.

(** Get returns a certificate data for the specified key. *)
Definition Get (c : Cache) (ctx : Context) (key : string)
  : (bytes * option error) * Cache :=
  match certs c !! key with
  | Some data => ((data, None), c)
  | None =>
      let data : bytes := [] in
      let '(row, db) := QueryRowContext (conn c) ctx (getQuery c) [] in
      let c := set_conn c db in
      let '(data, err) := Scan row data in
      if decide (err = Some ErrNoRows)
      then (([], Some ErrCacheMiss), c)
      else ((data, err), c)
  end.

(** Put stores the data in the cache under the specified key. *)
Definition Put (c : Cache) (ctx : Context) (key : string) (data : bytes)
  : option error * Cache :=
  let '(r, db) :=
    ExecContext (conn c) ctx (updateQuery c) [ArgString key; ArgBytes data] in
  let c := set_conn c db in
  match r with
  | inl err => (Some err, c)
  | inr result =>
      match RowsAffected result with
      | (_, Some err) => (Some err, c)
      | (rowsAffected, None) =>
          if decide (rowsAffected = 0)
          then
            let '(r, db) :=
              ExecContext (conn c) ctx (insertQuery c)
                          [ArgString key; ArgBytes data] in
            let c := set_conn c db in
            match r with
            | inl err => (Some err, c)
            | inr _ => (None, set_certs c (<[key := data]> (certs c)))
            end
          else (None, set_certs c (<[key := data]> (certs c)))
      end
  end.

(** Delete removes a certificate data from the cache under the specified
    key. *)
Definition Delete (c : Cache) (ctx : Context) (key : string)
  : option error * Cache :=
  let c :=
    match certs c !! key with
    | Some _ => set_certs c (delete key (certs c))
    | None => c
    end in
  let '(r, db) := ExecContext (conn c) ctx (deleteQuery c) [ArgString key] in
  let c := set_conn c db in
  match r with
  | inl err => (Some err, c)
  | inr _ => (None, c)
  end.

(* ===================================================================== *)
(** * Vocabulary of the properties *)
(* ===================================================================== *)

(** A run of calls on one cache, as a caller makes them one after the
    other. *)
Inductive op : Type :=
| OpGet (ctx : Context) (key : string)
| OpPut (ctx : Context) (key : string) (data : bytes)
| OpDelete (ctx : Context) (key : string).

Definition step (c : Cache) (o : op) : Cache :=
  match o with
  | OpGet ctx key => (Get c ctx key).2
  | OpPut ctx key data => (Put c ctx key data).2
  | OpDelete ctx key => (Delete c ctx key).2
  end.

Definition exec_ops (c : Cache) (ops : list op) : Cache :=
  fold_left step ops c.

(** Put or Delete aimed at [k]. *)
Definition writes_key (k : string) (o : op) : bool :=
  match o with
  | OpGet _ _ => false
  | OpPut _ key _ => bool_decide (key = k)
  | OpDelete _ key => bool_decide (key = k)
  end.

(** The calls made on the handle between two states of the database. *)
Definition issued (before after : DB) : list call :=
  drop (length (calls before)) (calls after).

(** The cache New builds for a table name on a given handle state. *)
Definition newCache (db : DB) (tableName : string) : Cache :=
  {| conn := db;
     certs := ∅;
     getQuery := Sprintf "SELECT data FROM %s" [tableName];
     insertQuery :=
       Sprintf "INSERT INTO %s (key, data) VALUES($1, $2)" [tableName];
     updateQuery :=
       Sprintf "UPDATE %s SET data = $2 WHERE key = $1" [tableName];
     deleteQuery := Sprintf "DELETE FROM %s WHERE key = $1" [tableName] |}.

(** The four queries of a cache are the four statements on table [t]. *)
Definition cache_for (t : string) (c : Cache) : Prop :=
  parse (getQuery c) = Some (Select t)
  /\ parse (insertQuery c) = Some (Insert t)
  /\ parse (updateQuery c) = Some (Update t)
  /\ parse (deleteQuery c) = Some (DeleteFrom t).

(** No method changes the query texts. *)
Definition same_queries (c c' : Cache) : Prop :=
  getQuery c' = getQuery c /\ insertQuery c' = insertQuery c
  /\ updateQuery c' = updateQuery c /\ deleteQuery c' = deleteQuery c.

(** The driver lets the next call through. *)
Definition next_runs (db : DB) : Prop := (next_fault db).1 = None.

(** The shape of every run of Put: which branch was taken, what came
    back and what the map is afterwards. *)
Inductive PutRun (c : Cache) (ctx : Context) (k : string) (v : bytes)
  : option error * Cache -> Prop :=
| PutUpdateFails e db :
    ExecContext (conn c) ctx (updateQuery c) [ArgString k; ArgBytes v]
      = (inl e, db) ->
    PutRun c ctx k v (Some e, set_conn c db)
| PutRowsAffectedFails res db n e :
    ExecContext (conn c) ctx (updateQuery c) [ArgString k; ArgBytes v]
      = (inr res, db) ->
    RowsAffected res = (n, Some e) ->
    PutRun c ctx k v (Some e, set_conn c db)
| PutInsertFails res db e db' :
    ExecContext (conn c) ctx (updateQuery c) [ArgString k; ArgBytes v]
      = (inr res, db) ->
    RowsAffected res = (0, None) ->
    ExecContext db ctx (insertQuery c) [ArgString k; ArgBytes v]
      = (inl e, db') ->
    PutRun c ctx k v (Some e, set_conn c db')
| PutInserted res db res' db' :
    ExecContext (conn c) ctx (updateQuery c) [ArgString k; ArgBytes v]
      = (inr res, db) ->
    RowsAffected res = (0, None) ->
    ExecContext db ctx (insertQuery c) [ArgString k; ArgBytes v]
      = (inr res', db') ->
    PutRun c ctx k v
      (None, set_certs (set_conn c db') (<[k := v]> (certs c)))
| PutUpdated res db n :
    ExecContext (conn c) ctx (updateQuery c) [ArgString k; ArgBytes v]
      = (inr res, db) ->
    RowsAffected res = (n, None) ->
    n <> 0 ->
    PutRun c ctx k v
      (None, set_certs (set_conn c db) (<[k := v]> (certs c))).

(** A store step of Put(k, v) fails with error [e], leaving the database
    in state [db]: the UPDATE fails; or the UPDATE succeeds and
    RowsAffected fails; or the UPDATE reports zero rows and the INSERT
    fails. *)
Inductive PutStepFails (c : Cache) (ctx : Context) (k : string) (v : bytes)
  : error -> DB -> Prop :=
| UpdateFails e db :
    ExecContext (conn c) ctx (updateQuery c) [ArgString k; ArgBytes v]
      = (inl e, db) ->
    PutStepFails c ctx k v e db
| RowsAffectedFails res db n e :
    ExecContext (conn c) ctx (updateQuery c) [ArgString k; ArgBytes v]
      = (inr res, db) ->
    RowsAffected res = (n, Some e) ->
    PutStepFails c ctx k v e db
| InsertFails res db e db' :
    ExecContext (conn c) ctx (updateQuery c) [ArgString k; ArgBytes v]
      = (inr res, db) ->
    RowsAffected res = (0, None) ->
    ExecContext db ctx (insertQuery c) [ArgString k; ArgBytes v]
      = (inl e, db') ->
    PutStepFails c ctx k v e db'.

(** One group of bytes accepted by the three predicates. *)
Definition rune_ok (p1 : ascii -> bool) (p2 : ascii -> ascii -> bool)
    (p3 : ascii -> ascii -> ascii -> bool) (r : list ascii) : bool :=
  match r with
  | [a] => p1 a
  | [a; b] => p2 a b
  | [a; b; c] => p3 a b c
  | _ => false
  end.

(** One white-space rune, as its UTF-8 bytes. *)
Definition is_space_rune (r : list ascii) : bool :=
  rune_ok space1 space2 space3 r.

(** A string that consists only of white space: it is a sequence of
    white-space runes (possibly none). *)
Definition blank (s : string) : Prop :=
  exists rs : list (list ascii),
    Forall (fun r => is_space_rune r = true) rs
    /\ list_ascii_of_string s = concat rs.

(** The text is empty or begins with white space. *)
Definition starts_blank (s : string) : Prop :=
  match s with
  | EmptyString => True
  | String a _ => Ascii.is_space a = true
  end.

(** What follows the table name in the create statement. *)
Definition createTail : string :=
  " (" +:+ nl +:+
  tab +:+ tab +:+ "key  varchar(400) not null primary key, " +:+ nl +:+
  tab +:+ tab +:+ "data bytea not null" +:+ nl +:+
  tab +:+ ");".

(** ** Concrete inputs *)

Definition emptyDB : DB := mkDB ∅ [] None [].

Definition b1 : bytes := [Byte.x01; Byte.x02; Byte.x03].
Definition b2 : bytes := [Byte.x09].

Definition fresh (t : string) : option Cache := (New emptyDB t).1.1.

(** The cache [New] returns on a fresh database, and that cache after
    Put("a", 01 02 03). *)
Definition certsCache : Cache :=
  default (mkCache emptyDB ∅ "" "" "" "") (fresh "certs").

Definition cacheWithA : Cache := (Put certsCache Background "a" b1).2.

Definition cacheWithA2 : Cache := (Put cacheWithA Background "a" b2).2.

Definition otherCalls : list op :=
  [OpGet Background "b"; OpPut Background "b" b2; OpDelete CtxCanceled "c";
   OpGet Background "a"].

(** Two databases on which a step of Put fails: a driver that has no
    RowsAffected, and a driver that fails the second call it receives. *)
Definition noRowsAffected (c : Cache) : Cache :=
  set_conn c (mkDB (tables (conn c)) [] (Some "no RowsAffected available")
                   (calls (conn c))).

Definition secondCallFails (c : Cache) : Cache :=
  set_conn c (mkDB (tables (conn c)) [None; Some "connection reset"] None
                   (calls (conn c))).

(** A database whose driver fails the first call it receives. *)
Definition refusingDB : DB := mkDB ∅ [Some "connection refused"] None [].

(** U+00A0, the no-break space, in UTF-8. *)
Definition nbsp : string :=
  String (ascii_of_nat 194) (String (ascii_of_nat 160) EmptyString).

(** ** Vocabulary of the further properties *)

(** The rows stored under key [k] in table [t]. *)
Definition rows_of (tbls : gmap string (list (string * bytes)))
    (t k : string) : list (string * bytes) :=
  match tbls !! t with
  | Some rows => filter (fun r => has_key k r = true) rows
  | None => []
  end.


(** Every entry of the in-memory map is a row of table [t]. *)
Definition coherent (t : string) (c : Cache) : Prop :=
  forall k v, certs c !! k = Some v -> In (k, v) (rows_of (tables (conn c)) t k).

(** The table after an upsert of (k, v): the rows for k rewritten, or
    the new row appended when there is none. *)
Definition upserted (k : string) (v : bytes) (rows : list (string * bytes))
  : list (string * bytes) :=
  if existsb (has_key k) rows
  then map (set_data k v) rows
  else rows ++ [(k, v)].

(** A run with failing and succeeding calls. *)
Definition moreCalls : list op :=
  [OpPut Background "a" b1; OpPut CtxCanceled "a" b2;
   OpPut Background "b" b2; OpDelete CtxCanceled "b"; OpGet Background "c"].

(* ===================================================================== *)
(** * The first variant of the package *)
(* ===================================================================== *)

(** The first variant keeps no in-memory map: Cache is the handle and
    the table name, every method formats its query when it is called,
    and Put sends a single INSERT ... ON CONFLICT statement. The driver
    below is the one of [Sql] with that statement added. *)
Module V1.

Inductive stmt : Type :=
| Plain (s : Sql.stmt)
| Upsert (t : string).
    (* INSERT INTO t (key, data) VALUES ($1, $2)
       ON CONFLICT (key) DO UPDATE SET data = $2 *)

Definition upsert_words (t : string) : list string :=
  ["INSERT"; "INTO"; t; "(key,"; "data)"; "VALUES"; "($1,"; "$2)";
   "ON"; "CONFLICT"; "(key)"; "DO"; "UPDATE"; "SET"; "data"; "="; "$2"].

Definition parse (query : string) : option stmt :=
  let ws := String.words query in
  if decide (ws = upsert_words (word_at ws 2))
  then Some (Upsert (word_at ws 2))
  else Plain <$> Sql.parse query.

Definition run (s : stmt) (args : list arg)
    (tbls : gmap string (list (string * bytes))) : error + outcome :=
  match s with
  | Plain s => Sql.run s args tbls
  | Upsert t =>
      match args with
      | [ArgString k; ArgBytes d] =>
          match tbls !! t with
          | Some rows =>
              if (400 <? Z.of_nat (String.length k))%Z
              then inl (DriverError
                          "value too long for type character varying(400)")
              else inr (Outcome (<[t := upserted k d rows]> tbls) [] 1)
          | None => inl (DriverError "relation does not exist")
          end
      | _ => inl (DriverError "wrong number or type of parameters")
      end
  end.

Definition dispatch (db : DB) (query : string) (args : list arg)
  : (error + outcome) * DB :=
  let '(f, fs) := next_fault db in
  match f with
  | Some text =>
      (inl (DriverError text),
       mkDB (tables db) fs (rows_affected_err db) (calls db))
  | None =>
      match parse query with
      | None =>
          (inl (DriverError "syntax error"),
           mkDB (tables db) fs (rows_affected_err db) (calls db))
      | Some s =>
          match run s args (tables db) with
          | inl e =>
              (inl e, mkDB (tables db) fs (rows_affected_err db) (calls db))
          | inr o =>
              (inr o, mkDB (out_tables o) fs (rows_affected_err db) (calls db))
          end
      end
  end.

Definition ExecContext (db : DB) (ctx : Context) (query : string)
    (args : list arg) : (error + Result) * DB :=
  let db := log db query args in
  match ctx_Err ctx with
  | Some e => (inl e, db)
  | None =>
      let '(r, db) := dispatch db query args in
      match r with
      | inl e => (inl e, db)
      | inr o =>
          (inr (mkResult
                  match rows_affected_err db with
                  | Some text => (0, Some (DriverError text))
                  | None => (out_affected o, None)
                  end), db)
      end
  end.

Definition Exec (db : DB) (query : string) (args : list arg)
  : (error + Result) * DB :=
  ExecContext db Background query args.

Definition QueryRowContext (db : DB) (ctx : Context) (query : string)
    (args : list arg) : Row * DB :=
  let db := log db query args in
  match ctx_Err ctx with
  | Some e => (mkRow (inl e), db)
  | None =>
      let '(r, db) := dispatch db query args in
      match r with
      | inl e => (mkRow (inl e), db)
      | inr o =>
          match out_rows o with
          | [] => (mkRow (inl ErrNoRows), db)
          | d :: _ => (mkRow (inr d), db)
          end
      end
  end.

(** Cache provides a SQL backend to the autocert cache. The methods have
    value receivers; the handle they copy points at the same database,
    whose state a call returns in the cache. *)
Record Cache : Type := mkCache {
  conn : DB;
  tableName : string
}.

Definition set_conn (c : Cache) (db : DB) : Cache :=
  mkCache db (tableName c).

(** New creates a cache instance. *)
Definition New (conn : DB) (tableName : string)
  : (option Cache * option error) * DB :=
  if decide (TrimSpace tableName = "")
  then ((None, Some (errors_New "tableName must not be empty")), conn)
  else
    let '(r, conn) := Exec conn (Sprintf createFormat [tableName]) [] in
    match r with
    | inl err => ((None, Some err), conn)
    | inr _ => ((Some (mkCache conn tableName), None), conn)
    end.

(** Get returns a certificate data for the specified key. *)
Definition Get (c : Cache) (ctx : Context) (key : string)
  : (bytes * option error) * Cache :=
  let data : bytes := [] in
  let '(row, db) :=
    QueryRowContext (conn c) ctx
                    (Sprintf "SELECT data FROM %s" [tableName c]) [] in
  let c := set_conn c db in
  let '(data, err) := Scan row data in
  if decide (err = Some ErrNoRows)
  then (([], Some ErrCacheMiss), c)
  else ((data, err), c).

(** The text of the statement Put sends, line by line as in the
    source. *)
Definition upsertFormat : string :=
  nl +:+
  tab +:+ "INSERT INTO %s (key, data)" +:+ nl +:+
  tab +:+ "VALUES ($1, $2) ON CONFLICT (key)" +:+ nl +:+
  tab +:+ "DO UPDATE SET data = $2".

(** Put stores the data in the cache under the specified key. *)
Definition Put (c : Cache) (ctx : Context) (key : string) (data : bytes)
  : option error * Cache :=
  let query := Sprintf upsertFormat [tableName c] in
  let '(r, db) :=
    ExecContext (conn c) ctx query [ArgString key; ArgBytes data] in
  let c := set_conn c db in
  match r with
  | inl err => (Some err, c)
  | inr _ => (None, c)
  end.

(** Delete removes a certificate data from the cache under the specified
    key. *)
Definition Delete (c : Cache) (ctx : Context) (key : string)
  : option error * Cache :=
  let query := Sprintf "DELETE FROM %s WHERE key = $1" [tableName c] in
  let '(r, db) := ExecContext (conn c) ctx query [ArgString key] in
  let c := set_conn c db in
  match r with
  | inl err => (Some err, c)
  | inr _ => (None, c)
  end.

End V1.

(** The first variant on the table certs over a fresh database. *)
Definition v1Cache : V1.Cache :=
  V1.mkCache (V1.New emptyDB "certs").2 "certs".


(** ** Tactics for the statement recogniser *)

Ltac parse_miss :=
  match goal with
  | |- context [decide (?ws = ?p)] =>
      destruct (decide (ws = p)) as [E|_];
      [exfalso; clear -E; apply (f_equal (@length string)) in E;
       cbn in E; rewrite ?length_app in E; cbn in E;
       first [discriminate E | lia | (cbv in E; congruence)]|]
  end.

Ltac parse_hit :=
  match goal with
  | |- context [decide (?ws = ?p)] =>
      destruct (decide (ws = p)) as [_|N];
      [reflexivity | exfalso; apply N; reflexivity]
  end.

(* ===================================================================== *)
(** * Properties of the methods *)
(* ===================================================================== *)

(** ** The package on concrete inputs *)

Example New_certs :
  New emptyDB "certs" = ((Some certsCache, None), conn certsCache).
Proof. vm_compute. reflexivity. Qed.

Example New_certs_queries :
  getQuery certsCache = "SELECT data FROM certs"
  /\ insertQuery certsCache = "INSERT INTO certs (key, data) VALUES($1, $2)"
  /\ updateQuery certsCache = "UPDATE certs SET data = $2 WHERE key = $1"
  /\ deleteQuery certsCache = "DELETE FROM certs WHERE key = $1"
  /\ tables (conn certsCache) !! "certs" = Some []
  /\ certs certsCache = ∅.
Proof. vm_compute. repeat split; reflexivity. Qed.

Example TrimSpace_examples :
  TrimSpace "  autocert_cache " = "autocert_cache"
  /\ TrimSpace (tab +:+ "a b" +:+ nl) = "a b"
  /\ TrimSpace (nbsp +:+ " " +:+ nbsp) = ""
  /\ TrimSpace "" = "".
Proof. vm_compute. repeat split; reflexivity. Qed.

Example New_two_words :
  (New emptyDB "my table").1 = (None, Some (DriverError "syntax error")).
Proof. vm_compute. reflexivity. Qed.

Example New_twice :
  (New (New emptyDB "certs").2 "certs").1.2 = None.
Proof. vm_compute. reflexivity. Qed.

Example end_to_end :
  (Put certsCache Background "example.org" b1).1 = None
  /\ (Get (Put certsCache Background "example.org" b1).2
          Background "example.org").1 = (b1, None)
  /\ (Delete (Put certsCache Background "example.org" b1).2
             Background "example.org").1 = None
  /\ (Get (Delete (Put certsCache Background "example.org" b1).2
                  Background "example.org").2
          Background "example.org").1 = ([], Some ErrCacheMiss).
Proof. vm_compute. repeat split; reflexivity. Qed.

(** ** What each method does to the in-memory map *)

Lemma certs_set_conn c db : certs (set_conn c db) = certs c.
Proof. reflexivity. Qed.

Lemma Get_hit c ctx k v :
  certs c !! k = Some v -> Get c ctx k = ((v, None), c).
Proof. intros H. unfold Get. rewrite H. reflexivity. Qed.

Lemma Get_miss c ctx k :
  certs c !! k = None ->
  Get c ctx k =
    let '(row, db) := QueryRowContext (conn c) ctx (getQuery c) [] in
    let '(data, err) := Scan row [] in
    if decide (err = Some ErrNoRows)
    then (([], Some ErrCacheMiss), set_conn c db)
    else ((data, err), set_conn c db).
Proof. intros H. unfold Get. rewrite H. reflexivity. Qed.

Lemma Get_certs c ctx k : certs (Get c ctx k).2 = certs c.
Proof.
  unfold Get. destruct (certs c !! k) as [d|]; [reflexivity|].
  destruct (QueryRowContext _ _ _ _) as [row db].
  destruct (Scan row []) as [data err].
  destruct (decide (err = Some ErrNoRows)); reflexivity.
Qed.

Lemma Put_run c ctx k v : PutRun c ctx k v (Put c ctx k v).
Proof.
  unfold Put.
  destruct (ExecContext (conn c) ctx (updateQuery c) _) as [[e|res] db] eqn:Hu.
  - by apply PutUpdateFails.
  - destruct (RowsAffected res) as [n [e|]] eqn:Hr.
    + by eapply PutRowsAffectedFails.
    + destruct (decide (n = 0)) as [->|Hn].
      * cbn [conn set_conn insertQuery].
        destruct (ExecContext db ctx (insertQuery c) _) as [[e|res'] db'] eqn:Hi.
        -- exact (PutInsertFails c ctx k v res db e db' Hu Hr Hi).
        -- exact (PutInserted c ctx k v res db res' db' Hu Hr Hi).
      * exact (PutUpdated c ctx k v res db n Hu Hr Hn).
Qed.

Lemma Put_ok_certs c ctx k v c' :
  Put c ctx k v = (None, c') -> certs c' = <[k := v]> (certs c).
Proof.
  intros H. pose proof (Put_run c ctx k v) as R. rewrite H in R.
  inversion R; reflexivity.
Qed.

Lemma Put_err_certs c ctx k v e c' :
  Put c ctx k v = (Some e, c') -> certs c' = certs c.
Proof.
  intros H. pose proof (Put_run c ctx k v) as R. rewrite H in R.
  inversion R; reflexivity.
Qed.

Lemma Put_certs_other c ctx k v k' :
  k <> k' -> certs (Put c ctx k v).2 !! k' = certs c !! k'.
Proof.
  intros Hne. destruct (Put c ctx k v) as [[e|] c'] eqn:H; cbn [snd].
  - by rewrite (Put_err_certs _ _ _ _ _ _ H).
  - rewrite (Put_ok_certs _ _ _ _ _ H). by rewrite lookup_insert_ne.
Qed.

Lemma Delete_certs c ctx k :
  certs (Delete c ctx k).2 = delete k (certs c).
Proof.
  unfold Delete.
  destruct (certs c !! k) as [d|] eqn:Hk.
  - cbn [conn set_certs deleteQuery].
    destruct (ExecContext _ _ _ _) as [[e|res] db]; reflexivity.
  - destruct (ExecContext _ _ _ _) as [[e|res] db]; cbn;
      symmetry; by apply delete_id.
Qed.

Lemma step_certs_other c o k :
  writes_key k o = false -> certs (step c o) !! k = certs c !! k.
Proof.
  destruct o as [ctx key|ctx key data|ctx key]; cbn [step writes_key].
  - intros _. by rewrite Get_certs.
  - intros H. apply bool_decide_eq_false in H. by apply Put_certs_other.
  - intros H. apply bool_decide_eq_false in H.
    rewrite Delete_certs. by apply lookup_delete_ne.
Qed.

Lemma exec_ops_certs_other ops c k :
  forallb (fun o => negb (writes_key k o)) ops = true ->
  certs (exec_ops c ops) !! k = certs c !! k.
Proof.
  revert c. induction ops as [|o ops IH]; intros c H; [reflexivity|].
  cbn in H. apply andb_true_iff in H as [Ho Hops].
  apply negb_true_iff in Ho.
  cbn [exec_ops fold_left]. fold (exec_ops (step c o) ops).
  rewrite IH by exact Hops. by apply step_certs_other.
Qed.

(** ** What each method sends to the database *)

Lemma dispatch_calls db q args : calls (dispatch db q args).2 = calls db.
Proof.
  unfold dispatch. destruct (next_fault db) as [[text|] fs]; [reflexivity|].
  destruct (parse q) as [s|]; [|reflexivity].
  destruct (run s args (tables db)); reflexivity.
Qed.

Lemma ExecContext_calls db ctx q args :
  calls (ExecContext db ctx q args).2 = calls db ++ [Call q args].
Proof.
  unfold ExecContext. destruct (ctx_Err ctx); [reflexivity|].
  pose proof (dispatch_calls (log db q args) q args) as H.
  destruct (dispatch (log db q args) q args) as [[e|o] db']; exact H.
Qed.

Lemma QueryRowContext_calls db ctx q args :
  calls (QueryRowContext db ctx q args).2 = calls db ++ [Call q args].
Proof.
  unfold QueryRowContext. destruct (ctx_Err ctx); [reflexivity|].
  pose proof (dispatch_calls (log db q args) q args) as H.
  destruct (dispatch (log db q args) q args) as [[e|o] db']; [exact H|].
  destruct (out_rows o); exact H.
Qed.

Lemma issued_app db db' l : calls db' = calls db ++ l -> issued db db' = l.
Proof. intros H. unfold issued. rewrite H. by rewrite drop_app_length. Qed.

Lemma Get_miss_calls c ctx k :
  certs c !! k = None ->
  calls (conn (Get c ctx k).2) = calls (conn c) ++ [Call (getQuery c) []].
Proof.
  intros H. rewrite (Get_miss _ _ _ H).
  pose proof (QueryRowContext_calls (conn c) ctx (getQuery c) []) as Hc.
  destruct (QueryRowContext _ _ _ _) as [row db].
  destruct (Scan row []) as [data err].
  destruct (decide (err = Some ErrNoRows)); exact Hc.
Qed.

Lemma Put_calls c ctx k v :
  calls (conn (Put c ctx k v).2) =
    calls (conn c) ++
      Call (updateQuery c) [ArgString k; ArgBytes v] ::
      match (ExecContext (conn c) ctx (updateQuery c)
                         [ArgString k; ArgBytes v]).1 with
      | inr res =>
          match RowsAffected res with
          | (0, None) => [Call (insertQuery c) [ArgString k; ArgBytes v]]
          | _ => []
          end
      | inl _ => []
      end.
Proof.
  pose proof (ExecContext_calls (conn c) ctx (updateQuery c)
                [ArgString k; ArgBytes v]) as Hu.
  destruct (Put_run c ctx k v) as
    [e db Eu|res db n e Eu Er|res db e db' Eu Er Ei
     |res db res' db' Eu Er Ei|res db n Eu Er Hn];
    rewrite Eu in Hu |- *; cbn [fst snd] in *; cbn [conn set_conn set_certs].
  - exact Hu.
  - rewrite Er. destruct n; exact Hu.
  - rewrite Er.
    pose proof (ExecContext_calls db ctx (insertQuery c)
                  [ArgString k; ArgBytes v]) as Hi.
    rewrite Ei in Hi. cbn [snd] in Hi. rewrite Hi, Hu.
    by rewrite <- app_assoc.
  - rewrite Er.
    pose proof (ExecContext_calls db ctx (insertQuery c)
                  [ArgString k; ArgBytes v]) as Hi.
    rewrite Ei in Hi. cbn [snd] in Hi. rewrite Hi, Hu.
    by rewrite <- app_assoc.
  - rewrite Er. destruct n; [done|exact Hu..].
Qed.

(** ** The words of the query texts *)

Lemma app_String a s1 s2 : String a s1 +:+ s2 = String a (s1 +:+ s2).
Proof. reflexivity. Qed.

Lemma app_empty_r s : s +:+ "" = s.
Proof. induction s as [|a s IH]; [reflexivity|]. by rewrite app_String, IH. Qed.

Lemma words_go_app cur s1 s2 :
  starts_blank s2 ->
  String.words_go cur (s1 +:+ s2) = String.words_go cur s1 ++ String.words s2.
Proof.
  intros Hs. revert cur. induction s1 as [|a s1 IH]; intros cur.
  - change ("" +:+ s2) with s2. destruct s2 as [|b s2]; cbn in *.
    + by rewrite app_nil_r.
    + by rewrite Hs.
  - rewrite app_String. cbn [String.words_go].
    destruct (Ascii.is_space a); [|apply IH].
    rewrite IH. by rewrite app_assoc.
Qed.

Lemma words_frame pre t post :
  starts_blank post ->
  String.words (pre +:+ " " +:+ t +:+ post)
  = String.words pre ++ String.words t ++ String.words post.
Proof.
  intros Hp. unfold String.words at 1.
  rewrite (words_go_app None pre (" " +:+ t +:+ post)) by reflexivity.
  f_equal. change (String.words (" " +:+ t +:+ post))
    with (String.words_go None (t +:+ post)).
  by apply words_go_app.
Qed.

Lemma Sprintf_select t :
  Sprintf "SELECT data FROM %s" [t] = "SELECT data FROM" +:+ " " +:+ t +:+ "".
Proof. reflexivity. Qed.

Lemma Sprintf_insert t :
  Sprintf "INSERT INTO %s (key, data) VALUES($1, $2)" [t]
  = "INSERT INTO" +:+ " " +:+ t +:+ " (key, data) VALUES($1, $2)".
Proof. reflexivity. Qed.

Lemma Sprintf_update t :
  Sprintf "UPDATE %s SET data = $2 WHERE key = $1" [t]
  = "UPDATE" +:+ " " +:+ t +:+ " SET data = $2 WHERE key = $1".
Proof. reflexivity. Qed.

Lemma Sprintf_delete t :
  Sprintf "DELETE FROM %s WHERE key = $1" [t]
  = "DELETE FROM" +:+ " " +:+ t +:+ " WHERE key = $1".
Proof. reflexivity. Qed.

Lemma Sprintf_create t :
  Sprintf createFormat [t]
  = "create table if not exists" +:+ " " +:+ t +:+ createTail.
Proof. reflexivity. Qed.

Lemma words_select t :
  String.words (Sprintf "SELECT data FROM %s" [t])
  = ["SELECT"; "data"; "FROM"] ++ String.words t.
Proof.
  rewrite Sprintf_select, words_frame by exact I.
  change (String.words "") with (@nil string). by rewrite app_nil_r.
Qed.

Lemma words_insert t :
  String.words (Sprintf "INSERT INTO %s (key, data) VALUES($1, $2)" [t])
  = ["INSERT"; "INTO"] ++ String.words t
    ++ ["(key,"; "data)"; "VALUES($1,"; "$2)"].
Proof. rewrite Sprintf_insert, words_frame by reflexivity. reflexivity. Qed.

Lemma words_update t :
  String.words (Sprintf "UPDATE %s SET data = $2 WHERE key = $1" [t])
  = ["UPDATE"] ++ String.words t
    ++ ["SET"; "data"; "="; "$2"; "WHERE"; "key"; "="; "$1"].
Proof. rewrite Sprintf_update, words_frame by reflexivity. reflexivity. Qed.

Lemma words_delete t :
  String.words (Sprintf "DELETE FROM %s WHERE key = $1" [t])
  = ["DELETE"; "FROM"] ++ String.words t ++ ["WHERE"; "key"; "="; "$1"].
Proof. rewrite Sprintf_delete, words_frame by reflexivity. reflexivity. Qed.

Lemma words_create t :
  String.words (Sprintf createFormat [t])
  = ["create"; "table"; "if"; "not"; "exists"] ++ String.words t
    ++ ["("; "key"; "varchar(400)"; "not"; "null"; "primary"; "key,";
        "data"; "bytea"; "not"; "null"; ");"].
Proof. rewrite Sprintf_create, words_frame by reflexivity. reflexivity. Qed.

(** ** Which statement each query text is *)

Lemma parse_select t w :
  String.words t = [w] ->
  parse (Sprintf "SELECT data FROM %s" [t]) = Some (Select w).
Proof.
  intros H. unfold parse. rewrite words_select, H. cbn [app].
  parse_miss. parse_hit.
Qed.

Lemma parse_insert t w :
  String.words t = [w] ->
  parse (Sprintf "INSERT INTO %s (key, data) VALUES($1, $2)" [t])
  = Some (Insert w).
Proof.
  intros H. unfold parse. rewrite words_insert, H. cbn [app].
  do 2 parse_miss. parse_hit.
Qed.

Lemma parse_update t w :
  String.words t = [w] ->
  parse (Sprintf "UPDATE %s SET data = $2 WHERE key = $1" [t])
  = Some (Update w).
Proof.
  intros H. unfold parse. rewrite words_update, H. cbn [app].
  do 3 parse_miss. parse_hit.
Qed.

Lemma parse_delete t w :
  String.words t = [w] ->
  parse (Sprintf "DELETE FROM %s WHERE key = $1" [t]) = Some (DeleteFrom w).
Proof.
  intros H. unfold parse. rewrite words_delete, H. cbn [app].
  do 2 parse_miss.
  destruct (decide (_ = insert_words _)) as [E|_];
    [exfalso; clear -E; cbv in E; congruence|].
  parse_miss. parse_hit.
Qed.

Lemma parse_create t w :
  String.words t = [w] ->
  parse (Sprintf createFormat [t]) = Some (CreateTable w).
Proof.
  intros H. unfold parse. rewrite words_create, H. cbn [app]. parse_hit.
Qed.

Lemma parse_create_inv t s :
  parse (Sprintf createFormat [t]) = Some s ->
  exists w, String.words t = [w] /\ s = CreateTable w.
Proof.
  intros H. destruct (String.words t) as [|w [|w' l]] eqn:Hw.
  - exfalso. unfold parse in H. rewrite words_create, Hw in H.
    vm_compute in H. discriminate H.
  - exists w. split; [reflexivity|].
    rewrite (parse_create t w Hw) in H. congruence.
  - exfalso. unfold parse in H. rewrite words_create, Hw in H.
    cbn [app] in H. revert H. do 5 parse_miss. discriminate.
Qed.

(** ** Calls that reach the statement *)

Lemma ExecContext_ok_inv db ctx q args res db' :
  ExecContext db ctx q args = (inr res, db') ->
  exists s o,
    parse q = Some s /\ run s args (tables db) = inr o
    /\ tables db' = out_tables o
    /\ rows_affected_err db' = rows_affected_err db
    /\ RowsAffected res =
         match rows_affected_err db with
         | Some text => (0, Some (DriverError text))
         | None => (out_affected o, None)
         end.
Proof.
  unfold ExecContext. destruct (ctx_Err ctx); [discriminate|].
  unfold dispatch. destruct (next_fault (log db q args)) as [[text|] fs];
    [discriminate|].
  destruct (parse q) as [s|]; [|discriminate].
  cbn [tables log rows_affected_err].
  destruct (run s args (tables db)) as [e|o] eqn:Hr; [discriminate|].
  intros H. injection H as <- <-. exists s, o. cbn. by repeat split.
Qed.

Lemma ExecContext_runs db ctx q args s o :
  ctx_Err ctx = None -> next_runs db ->
  parse q = Some s -> run s args (tables db) = inr o ->
  exists res db',
    ExecContext db ctx q args = (inr res, db')
    /\ tables db' = out_tables o
    /\ RowsAffected res =
         match rows_affected_err db with
         | Some text => (0, Some (DriverError text))
         | None => (out_affected o, None)
         end.
Proof.
  intros Hc Hf Hp Hr. unfold ExecContext, dispatch. rewrite Hc.
  unfold next_runs, next_fault in Hf. unfold next_fault. cbn [faults log].
  destruct (faults db) as [|f fs]; cbn in Hf; subst;
    rewrite Hp; cbn [tables log]; rewrite Hr; eauto.
Qed.

(** No statement drops a table. *)
Lemma run_keeps_tables s args tbls o t :
  run s args tbls = inr o -> is_Some (tbls !! t) -> is_Some (out_tables o !! t).
Proof.
  intros Hr Ht.
  assert (forall (t' : string) rows, is_Some (<[t' := rows]> tbls !! t)) as Hi.
  { intros t' rows. destruct (decide (t' = t)) as [->|Hne].
    - rewrite lookup_insert_eq. eauto.
    - by rewrite lookup_insert_ne. }
  destruct s as [t'|t'|t'|t'|t']; cbn in Hr;
    repeat match type of Hr with
      | match ?x with _ => _ end = _ => destruct x eqn:?; try discriminate
      end;
    injection Hr as <-; cbn [out_tables]; auto.
Qed.

(** ** What UPDATE and INSERT leave in the table *)

Lemma has_key_true k r : has_key k r = true <-> r.1 = k.
Proof. unfold has_key. apply bool_decide_eq_true. Qed.

Lemma count_key_cons k r rows :
  count_key k (r :: rows)
  = (if has_key k r then 1 else 0) + count_key k rows.
Proof.
  unfold count_key. rewrite filter_cons.
  destruct (has_key k r) eqn:H.
  - rewrite decide_True by reflexivity. cbn [length]. lia.
  - rewrite decide_False by discriminate. lia.
Qed.

Lemma count_key_nonneg k rows : 0 <= count_key k rows.
Proof. unfold count_key. lia. Qed.

Lemma count_key_zero k rows :
  count_key k rows = 0 -> forall d, ~ In (k, d) rows.
Proof.
  induction rows as [|r rows IH]; intros H d; [auto|].
  rewrite count_key_cons in H. pose proof (count_key_nonneg k rows).
  destruct (has_key k r) eqn:Hr; [lia|].
  intros [->|Hin]; [|by apply (IH ltac:(lia) d)].
  unfold has_key in Hr. cbn in Hr. by rewrite bool_decide_eq_false in Hr.
Qed.

Lemma count_key_pos k rows :
  count_key k rows <> 0 -> exists d, In (k, d) rows.
Proof.
  induction rows as [|[k' d'] rows IH]; intros H; [done|].
  rewrite count_key_cons in H.
  destruct (has_key k (k', d')) eqn:Hr.
  - apply has_key_true in Hr. cbn in Hr. subst k'. exists d'. by left.
  - destruct IH as [d Hd]; [lia|]. exists d. by right.
Qed.

Lemma set_data_In k v rows d :
  In (k, d) (map (set_data k v) rows) -> d = v.
Proof.
  rewrite in_map_iff. intros [[k' d'] [Heq _]]. unfold set_data in Heq.
  destruct (has_key k (k', d')) eqn:Hr.
  - by injection Heq as _ <-.
  - injection Heq as -> ->. unfold has_key in Hr. cbn in Hr.
    by rewrite bool_decide_eq_false in Hr.
Qed.

Lemma set_data_present k v rows d :
  In (k, d) rows -> In (k, v) (map (set_data k v) rows).
Proof.
  intros Hin. apply in_map_iff. exists (k, d). split; [|exact Hin].
  unfold set_data, has_key. cbn. by rewrite bool_decide_true.
Qed.

Lemma run_Update_inv t k v tbls o :
  run (Update t) [ArgString k; ArgBytes v] tbls = inr o ->
  exists rows, tbls !! t = Some rows
    /\ out_tables o = <[t := map (set_data k v) rows]> tbls
    /\ out_affected o = count_key k rows.
Proof.
  cbn. destruct (tbls !! t) as [rows|]; [|discriminate].
  intros H. injection H as <-. eauto.
Qed.

Lemma run_Insert_inv t k v tbls o :
  run (Insert t) [ArgString k; ArgBytes v] tbls = inr o ->
  exists rows, tbls !! t = Some rows
    /\ out_tables o = <[t := rows ++ [(k, v)]]> tbls.
Proof.
  cbn. destruct (tbls !! t) as [rows|]; [|discriminate].
  destruct (400 <? _); [discriminate|].
  destruct (existsb _ _); [discriminate|].
  intros H. injection H as <-. eauto.
Qed.

(** After a Put that returned nil, the table holds a row for the key and
    every row for the key carries the payload. *)
Lemma Put_ok_store c ctx k v c' t :
  parse (updateQuery c) = Some (Update t) ->
  parse (insertQuery c) = Some (Insert t) ->
  Put c ctx k v = (None, c') ->
  exists rows, tables (conn c') !! t = Some rows
    /\ In (k, v) rows /\ forall d, In (k, d) rows -> d = v.
Proof.
  intros Hpu Hpi H. pose proof (Put_run c ctx k v) as R. rewrite H in R.
  inversion R as [| | |res db res' db' Eu Er Ei|res db n Eu Er Hn]; subst.
  - apply ExecContext_ok_inv in Eu as (s & o & Hs & Hrun & Ht & Hra & Hres).
    rewrite Hpu in Hs. injection Hs as <-.
    apply run_Update_inv in Hrun as (rows & Hrows & Ho & Hn).
    apply ExecContext_ok_inv in Ei as (s' & o' & Hs' & Hrun' & Ht' & _ & _).
    rewrite Hpi in Hs'. injection Hs' as <-.
    apply run_Insert_inv in Hrun' as (rows' & Hrows' & Ho').
    rewrite Ht, Ho, lookup_insert_eq in Hrows'. injection Hrows' as <-.
    exists (map (set_data k v) rows ++ [(k, v)]). cbn [conn set_conn set_certs].
    rewrite Ht', Ho', lookup_insert_eq. split; [reflexivity|]. split.
    + apply in_or_app. right. by left.
    + intros d [Hd|[Hd|[]]]%in_app_or.
      * by apply set_data_In in Hd.
      * by injection Hd as <-.
  - apply ExecContext_ok_inv in Eu as (s & o & Hs & Hrun & Ht & Hra & Hres).
    rewrite Hpu in Hs. injection Hs as <-.
    apply run_Update_inv in Hrun as (rows & Hrows & Ho & Haff).
    exists (map (set_data k v) rows). cbn [conn set_conn set_certs].
    rewrite Ht, Ho, lookup_insert_eq. split; [reflexivity|]. split.
    + rewrite Er in Hres. destruct (rows_affected_err (conn c));
        [discriminate|].
      injection Hres as ->. rewrite Haff in Hn.
      destruct (count_key_pos _ _ Hn) as [d Hd].
      by eapply set_data_present.
    + intros d Hd. by apply set_data_In in Hd.
Qed.

(** ** strings.TrimSpace and blank names *)

Section TrimFacts.
Variable p1 : ascii -> bool.
Variable p2 : ascii -> ascii -> bool.
Variable p3 : ascii -> ascii -> ascii -> bool.

Lemma trim_front_split_aux n l :
  (length l <= n)%nat ->
  exists rs, Forall (fun r => rune_ok p1 p2 p3 r = true) rs
    /\ l = concat rs ++ trim_front p1 p2 p3 l.
Proof.
  revert l. induction n as [|n IH]; intros l Hn.
  { destruct l; [|cbn in Hn; lia]. exists []. by split. }
  destruct l as [|a l1]; [exists []; by split|].
  cbn [trim_front]. destruct (p1 a) eqn:H1.
  { destruct (IH l1) as (rs & Hrs & Heq); [cbn in Hn; lia|].
    exists ([a] :: rs). split; [constructor; [exact H1|exact Hrs]|].
    cbn. by rewrite <- Heq. }
  destruct l1 as [|b l2]; [exists []; by split|].
  destruct (p2 a b) eqn:H2.
  { destruct (IH l2) as (rs & Hrs & Heq); [cbn in Hn; lia|].
    exists ([a; b] :: rs). split; [constructor; [exact H2|exact Hrs]|].
    cbn. by rewrite <- Heq. }
  destruct l2 as [|c l3]; [exists []; by split|].
  destruct (p3 a b c) eqn:H3; [|exists []; by split].
  destruct (IH l3) as (rs & Hrs & Heq); [cbn in Hn; lia|].
  exists ([a; b; c] :: rs). split; [constructor; [exact H3|exact Hrs]|].
  cbn. by rewrite <- Heq.
Qed.

Lemma trim_front_split l :
  exists rs, Forall (fun r => rune_ok p1 p2 p3 r = true) rs
    /\ l = concat rs ++ trim_front p1 p2 p3 l.
Proof. by apply (trim_front_split_aux (length l)). Qed.

(** When a longer group never starts with a byte that is a shorter group
    on its own, a sequence of groups is trimmed away entirely. *)
Hypothesis p2_not_p1 : forall a b, p2 a b = true -> p1 a = false.
Hypothesis p3_not_p1 : forall a b c, p3 a b c = true -> p1 a = false.
Hypothesis p3_not_p2 : forall a b c, p3 a b c = true -> p2 a b = false.

Lemma trim_front_runes rs l :
  Forall (fun r => rune_ok p1 p2 p3 r = true) rs ->
  trim_front p1 p2 p3 (concat rs ++ l) = trim_front p1 p2 p3 l.
Proof.
  induction 1 as [|r rs Hr _ IH]; [reflexivity|].
  destruct r as [|a [|b [|c [|]]]]; try discriminate; cbn in Hr |- *.
  - by rewrite Hr.
  - by rewrite (p2_not_p1 _ _ Hr), Hr.
  - by rewrite (p3_not_p1 _ _ _ Hr), (p3_not_p2 _ _ _ Hr), Hr.
Qed.
End TrimFacts.

Lemma code_eq a n :
  (code a =? n)%N = true -> a = ascii_of_N n.
Proof.
  intros H. apply N.eqb_eq in H. unfold code in H. rewrite <- H.
  by rewrite ascii_N_embedding.
Qed.

Lemma space2_not_space1 a b : space2 a b = true -> space1 a = false.
Proof.
  unfold space2. intros [Ha _]%andb_true_iff.
  apply code_eq in Ha. by subst a.
Qed.

Lemma space3_first a b c :
  space3 a b c = true ->
  a = ascii_of_N 225 \/ a = ascii_of_N 226 \/ a = ascii_of_N 227.
Proof.
  unfold space3. rewrite !orb_true_iff, !andb_true_iff.
  intros [[[[[Ha _] _]|[[Ha _] _]]|[[Ha _] _]]|[[Ha _] _]];
    apply code_eq in Ha; auto.
Qed.

Lemma space3_not_space1 a b c : space3 a b c = true -> space1 a = false.
Proof. intros [->|[->| ->]]%space3_first; reflexivity. Qed.

Lemma space3_not_space2 a b c : space3 a b c = true -> space2 a b = false.
Proof. intros [->|[->| ->]]%space3_first; reflexivity. Qed.

Lemma TrimLeftSpace_blank rs :
  Forall (fun r => is_space_rune r = true) rs ->
  TrimLeftSpace (concat rs) = [].
Proof.
  intros H. unfold TrimLeftSpace.
  rewrite <- (app_nil_r (concat rs)).
  rewrite (trim_front_runes space1 space2 space3
             space2_not_space1 space3_not_space1 space3_not_space2 rs []);
    [reflexivity|exact H].
Qed.

Lemma rev_rune_ok r :
  rune_ok space1 (fun b a => space2 a b) (fun c b a => space3 a b c) r = true ->
  is_space_rune (rev r) = true.
Proof. destruct r as [|a [|b [|c [|]]]]; try discriminate; cbn; auto. Qed.

Lemma rev_concat {A} (ls : list (list A)) :
  rev (concat ls) = concat (map (@rev A) (rev ls)).
Proof.
  induction ls as [|l ls IH]; [reflexivity|].
  cbn. rewrite rev_app_distr, IH, map_app, concat_app. cbn.
  by rewrite app_nil_r.
Qed.

Lemma TrimSpace_blank s : TrimSpace s = "" <-> blank s.
Proof.
  unfold TrimSpace, blank. split.
  - intros H.
    assert (TrimRightSpace (TrimLeftSpace (list_ascii_of_string s)) = []) as Hr.
    { destruct (TrimRightSpace _); [reflexivity|discriminate H]. }
    destruct (trim_front_split space1 space2 space3 (list_ascii_of_string s))
      as (rs1 & Hrs1 & Heq1).
    fold (TrimLeftSpace (list_ascii_of_string s)) in Heq1.
    set (m := TrimLeftSpace (list_ascii_of_string s)) in *.
    destruct (trim_front_split space1 (fun b a => space2 a b)
                (fun c b a => space3 a b c) (rev m)) as (rs2 & Hrs2 & Heq2).
    unfold TrimRightSpace in Hr.
    apply (f_equal (@rev ascii)) in Hr. rewrite rev_involutive in Hr.
    rewrite Hr, app_nil_r in Heq2.
    apply (f_equal (@rev ascii)) in Heq2.
    rewrite rev_involutive, rev_concat in Heq2.
    exists (rs1 ++ map (@rev ascii) (rev rs2)). split.
    + apply Forall_app. split; [exact Hrs1|].
      apply Forall_forall. intros r Hin. apply list_elem_of_In in Hin.
      apply in_map_iff in Hin as (r' & <- & Hin').
      apply rev_rune_ok. rewrite Forall_forall in Hrs2. apply Hrs2.
      apply list_elem_of_In. by apply in_rev.
    + rewrite concat_app, <- Heq2. exact Heq1.
  - intros (rs & Hrs & Heq). rewrite Heq, TrimLeftSpace_blank by exact Hrs.
    reflexivity.
Qed.

(** ** New *)

Lemma New_blank db tableName :
  TrimSpace tableName = "" ->
  New db tableName
  = ((None, Some (errors_New "tableName must not be empty")), db).
Proof. intros H. unfold New. by rewrite decide_True. Qed.

Lemma New_not_blank db tableName :
  TrimSpace tableName <> "" ->
  New db tableName =
    match Exec db (Sprintf createFormat [tableName]) [] with
    | (inl err, db') => ((None, Some err), db')
    | (inr _, db') => ((Some (newCache db' tableName), None), db')
    end.
Proof.
  intros H. unfold New. rewrite decide_False by exact H.
  destruct (Exec db _ []) as [[e|res] db']; reflexivity.
Qed.

Lemma newCache_for db tableName w :
  String.words tableName = [w] -> cache_for w (newCache db tableName).
Proof.
  intros H. unfold cache_for, newCache.
  cbn [getQuery insertQuery updateQuery deleteQuery].
  auto using parse_select, parse_insert, parse_update, parse_delete.
Qed.

Lemma Exec_create_ok db tableName res db' :
  Exec db (Sprintf createFormat [tableName]) [] = (inr res, db') ->
  exists w, String.words tableName = [w] /\ is_Some (tables db' !! w).
Proof.
  unfold Exec. intros H.
  apply ExecContext_ok_inv in H as (s & o & Hs & Hrun & Ht & _ & _).
  apply parse_create_inv in Hs as (w & Hw & ->).
  exists w. split; [exact Hw|]. rewrite Ht. cbn in Hrun.
  destruct (tables db !! w) as [rows|] eqn:Hl; injection Hrun as <-; cbn.
  - rewrite Hl. eauto.
  - rewrite lookup_insert_eq. eauto.
Qed.

Lemma New_ok_inv db tableName c db' :
  New db tableName = ((Some c, None), db') ->
  c = newCache db' tableName
  /\ exists w, String.words tableName = [w]
       /\ cache_for w c /\ is_Some (tables db' !! w).
Proof.
  intros H. destruct (decide (TrimSpace tableName = "")) as [Hb|Hb].
  { rewrite New_blank in H by exact Hb. discriminate. }
  rewrite New_not_blank in H by exact Hb.
  destruct (Exec db _ []) as [[e|res] db1] eqn:He; [discriminate|].
  injection H as <- <-. split; [reflexivity|].
  destruct (Exec_create_ok _ _ _ _ He) as (w & Hw & Ht).
  exists w. auto using newCache_for.
Qed.

Lemma Get_queries c ctx k : same_queries c (Get c ctx k).2.
Proof.
  unfold Get. destruct (certs c !! k); [by repeat split|].
  destruct (QueryRowContext _ _ _ _) as [row db].
  destruct (Scan row []) as [data err].
  destruct (decide (err = Some ErrNoRows)); by repeat split.
Qed.

Lemma Put_queries c ctx k v : same_queries c (Put c ctx k v).2.
Proof. destruct (Put_run c ctx k v); by repeat split. Qed.

Lemma Delete_queries c ctx k : same_queries c (Delete c ctx k).2.
Proof.
  unfold Delete. destruct (certs c !! k);
    destruct (ExecContext _ _ _ _) as [[e|res] db]; by repeat split.
Qed.

Lemma exec_ops_queries ops c : same_queries c (exec_ops c ops).
Proof.
  revert c. induction ops as [|o ops IH]; intros c; [by repeat split|].
  cbn [exec_ops fold_left]. fold (exec_ops (step c o) ops).
  assert (same_queries c (step c o)) as (H1 & H2 & H3 & H4).
  { destruct o; cbn [step];
      auto using Get_queries, Put_queries, Delete_queries. }
  destruct (IH (step c o)) as (G1 & G2 & G3 & G4).
  repeat split; congruence.
Qed.

Lemma cache_for_same t c c' : same_queries c c' -> cache_for t c -> cache_for t c'.
Proof.
  intros (H1 & H2 & H3 & H4) (G1 & G2 & G3 & G4).
  unfold cache_for. rewrite H1, H2, H3, H4. auto.
Qed.

(** Every cache reached from New by calls of the methods still has the
    four statements on its table as queries. *)
Lemma New_exec_ops_cache_for db tableName c0 db' ops :
  New db tableName = ((Some c0, None), db') ->
  exists t, String.words tableName = [t] /\ cache_for t (exec_ops c0 ops).
Proof.
  intros H. apply New_ok_inv in H as (_ & t & Hw & Hc & _).
  exists t. split; [exact Hw|].
  exact (cache_for_same t c0 _ (exec_ops_queries ops c0) Hc).
Qed.

(** ** Delete *)

Lemma Delete_unfold c ctx k :
  Delete c ctx k =
    match ExecContext (conn c) ctx (deleteQuery c) [ArgString k] with
    | (inl err, db) => (Some err, set_conn (set_certs c (delete k (certs c))) db)
    | (inr _, db) => (None, set_conn (set_certs c (delete k (certs c))) db)
    end.
Proof.
  unfold Delete. destruct (certs c !! k) as [d|] eqn:Hk.
  - cbn [conn set_certs deleteQuery].
    destruct (ExecContext _ _ _ _) as [[e|res] db]; reflexivity.
  - rewrite (delete_id _ _ Hk).
    destruct (ExecContext _ _ _ _) as [[e|res] db]; by destruct c.
Qed.

Lemma run_Delete t k tbls rows :
  tbls !! t = Some rows ->
  run (DeleteFrom t) [ArgString k] tbls
  = inr (Outcome (<[t := filter (fun r => has_key k r = false) rows]> tbls)
                 [] (count_key k rows)).
Proof. intros H. cbn. by rewrite H. Qed.

(** ** Get on a memory miss *)

Lemma QueryRowContext_first db ctx t q rows :
  ctx_Err ctx = None -> next_runs db ->
  parse q = Some (Select t) -> tables db !! t = Some rows ->
  (QueryRowContext db ctx q []).1
  = mkRow match rows with
          | [] => inl ErrNoRows
          | r :: _ => inr r.2
          end.
Proof.
  intros Hc Hf Hp Ht. unfold QueryRowContext, dispatch. rewrite Hc.
  unfold next_runs, next_fault in Hf. unfold next_fault. cbn [faults log].
  destruct (faults db) as [|f fs]; cbn in Hf; subst;
    rewrite Hp; cbn [tables log run]; rewrite Ht; cbn [out_rows];
    destruct rows as [|r rows]; reflexivity.
Qed.

Lemma Get_miss_first_row c ctx k t r rows :
  cache_for t c -> certs c !! k = None ->
  ctx_Err ctx = None -> next_runs (conn c) ->
  tables (conn c) !! t = Some (r :: rows) ->
  (Get c ctx k).1 = (r.2, None).
Proof.
  intros (Hg & _) Hk Hc Hf Ht. rewrite (Get_miss _ _ _ Hk).
  pose proof (QueryRowContext_first _ _ _ _ _ Hc Hf Hg Ht) as Hq.
  destruct (QueryRowContext _ _ _ _) as [row db]. cbn [fst] in Hq. subst row.
  reflexivity.
Qed.

(* ===================================================================== *)
(** * The properties of the specification *)
(* ===================================================================== *)

(** C1 (the code departs from the specification). The specification: a
    Get for a key that is neither in the in-memory map nor in the table
    fetches by that key and returns ErrCacheMiss whatever other rows
    exist. The code: after
    New on the table certs and Put("a", 01 02 03), the key "b" is in
    neither the map nor the table, Get("b") sends the text
    SELECT data FROM certs with no operand, and returns the payload
    stored under "a" with a nil error. *)
Theorem Get_unknown_key_returns_other_row :
  New emptyDB "certs" = ((Some certsCache, None), conn certsCache)
  /\ Put certsCache Background "a" b1 = (None, cacheWithA)
  /\ certs cacheWithA !! "b" = None
  /\ tables (conn cacheWithA) !! "certs" = Some [("a", b1)]
  /\ issued (conn cacheWithA) (conn (Get cacheWithA Background "b").2)
     = [Call "SELECT data FROM certs" []]
  /\ (Get cacheWithA Background "b").1 = (b1, None).
Proof. vm_compute. repeat split; reflexivity. Qed.

(** C2. If Put(k, v) returned nil, then after any further calls that are
    neither Put nor Delete on k, Get(k) returns v and a nil error (it is
    answered from the in-memory map and leaves the cache as it is). *)
Theorem Put_then_Get c ctx k v c1 ops ctx' :
  Put c ctx k v = (None, c1) ->
  forallb (fun o => negb (writes_key k o)) ops = true ->
  Get (exec_ops c1 ops) ctx' k = ((v, None), exec_ops c1 ops).
Proof.
  intros HP Hops. apply Get_hit.
  rewrite (exec_ops_certs_other _ _ _ Hops), (Put_ok_certs _ _ _ _ _ HP).
  apply lookup_insert_eq.
Qed.

Lemma Put_then_Get_witness :
  Put certsCache Background "a" b1 = (None, cacheWithA)
  /\ Get (exec_ops cacheWithA otherCalls) Background "a"
     = ((b1, None), exec_ops cacheWithA otherCalls).
Proof.
  assert (Put certsCache Background "a" b1 = (None, cacheWithA)) as H
    by (vm_compute; reflexivity).
  split; [exact H|].
  apply (Put_then_Get certsCache Background "a" b1 cacheWithA otherCalls
           Background H).
  reflexivity.
Defined.

(** C3 as stated fails: Delete("a") under a cancelled context returns
    the error, and the entry for "a", present before the call, is gone
    from the in-memory map afterwards. *)
Lemma Delete_failure_drops_entry :
  (Delete cacheWithA CtxCanceled "a").1 = Some Canceled
  /\ certs cacheWithA !! "a" = Some b1
  /\ certs (Delete cacheWithA CtxCanceled "a").2 !! "a" = None.
Proof. vm_compute. repeat split; reflexivity. Qed.

(** C3 (amended). If Put returns an error the in-memory map is exactly
    as before the call. If Delete(k) returns an error the in-memory map
    is the map before the call with k removed: the removal comes before
    the store round-trip and is not undone, and only k is affected. *)
Theorem failed_write_memory c ctx k :
  (forall v e c', Put c ctx k v = (Some e, c') -> certs c' = certs c)
  /\ (forall e c', Delete c ctx k = (Some e, c') ->
        certs c' = delete k (certs c)).
Proof.
  split.
  - intros v e c' H. exact (Put_err_certs _ _ _ _ _ _ H).
  - intros e c' H. rewrite <- (Delete_certs c ctx k). by rewrite H.
Qed.

Lemma failed_write_memory_witness :
  certs (Put cacheWithA CtxCanceled "a" b2).2 = certs cacheWithA
  /\ certs (Delete cacheWithA CtxCanceled "a").2
     = delete "a" (certs cacheWithA).
Proof.
  destruct (failed_write_memory cacheWithA CtxCanceled "a") as [HP HD].
  split.
  - apply (HP b2 Canceled). vm_compute. reflexivity.
  - apply (HD Canceled). vm_compute. reflexivity.
Defined.

(** C4. Whichever store step of Put fails (the UPDATE, the RowsAffected
    inspection, or the INSERT made after an UPDATE of zero rows), Put
    returns that error and the in-memory map is as it was before the
    call: the key is not written. *)
Theorem Put_store_failure c ctx k v e db :
  PutStepFails c ctx k v e db ->
  Put c ctx k v = (Some e, set_conn c db)
  /\ certs (Put c ctx k v).2 = certs c.
Proof.
  intros H.
  assert (Put c ctx k v = (Some e, set_conn c db)) as E.
  { destruct H as [e db H|res db n e H Hr|res db e db' H Hr Hi]; unfold Put.
    - by rewrite H.
    - by rewrite H, Hr.
    - rewrite H, Hr. rewrite decide_True by reflexivity.
      cbn [conn set_conn insertQuery]. by rewrite Hi. }
  split; [exact E|]. rewrite E. reflexivity.
Qed.

Lemma Put_store_failure_witness :
  ((Put certsCache CtxCanceled "a" b1).1 = Some Canceled
   /\ certs (Put certsCache CtxCanceled "a" b1).2 = certs certsCache)
  /\ ((Put (noRowsAffected certsCache) Background "a" b1).1
        = Some (DriverError "no RowsAffected available")
      /\ certs (Put (noRowsAffected certsCache) Background "a" b1).2
         = certs (noRowsAffected certsCache))
  /\ ((Put (secondCallFails certsCache) Background "a" b1).1
        = Some (DriverError "connection reset")
      /\ certs (Put (secondCallFails certsCache) Background "a" b1).2
         = certs (secondCallFails certsCache)).
Proof.
  split; [|split].
  - destruct (Put_store_failure certsCache CtxCanceled "a" b1 Canceled
      (ExecContext (conn certsCache) CtxCanceled (updateQuery certsCache)
         [ArgString "a"; ArgBytes b1]).2) as [E M].
    { apply UpdateFails. vm_compute. reflexivity. }
    split; [rewrite E; reflexivity|exact M].
  - destruct (Put_store_failure (noRowsAffected certsCache) Background "a" b1
      (DriverError "no RowsAffected available")
      (ExecContext (conn (noRowsAffected certsCache)) Background
         (updateQuery (noRowsAffected certsCache))
         [ArgString "a"; ArgBytes b1]).2) as [E M].
    { apply (RowsAffectedFails _ _ _ _
               (mkResult (0, Some (DriverError "no RowsAffected available")))
               _ 0).
      - vm_compute. reflexivity.
      - reflexivity. }
    split; [rewrite E; reflexivity|exact M].
  - destruct (Put_store_failure (secondCallFails certsCache) Background "a" b1
      (DriverError "connection reset")
      (Put (secondCallFails certsCache) Background "a" b1).2.(conn))
      as [E M].
    { apply (InsertFails _ _ _ _ (mkResult (0, None))
               (ExecContext (conn (secondCallFails certsCache)) Background
                  (updateQuery (secondCallFails certsCache))
                  [ArgString "a"; ArgBytes b1]).2).
      - vm_compute. reflexivity.
      - reflexivity.
      - vm_compute. reflexivity. }
    split; [rewrite E; reflexivity|exact M].
Defined.

(** C5. Put first sends the UPDATE for (k, v); it then sends the INSERT
    for (k, v) exactly when the UPDATE succeeded and reported zero rows
    affected, and sends nothing else. On a cache built by New, and used
    since through its methods, these two texts are the UPDATE and INSERT
    statements on the cache's table. *)
Theorem Put_update_then_insert c ctx k v :
  exists rest,
    issued (conn c) (conn (Put c ctx k v).2)
      = Call (updateQuery c) [ArgString k; ArgBytes v] :: rest
    /\ (rest = [] \/ rest = [Call (insertQuery c) [ArgString k; ArgBytes v]])
    /\ (rest = [Call (insertQuery c) [ArgString k; ArgBytes v]] <->
        exists res,
          (ExecContext (conn c) ctx (updateQuery c)
                       [ArgString k; ArgBytes v]).1 = inr res
          /\ RowsAffected res = (0, None))
    /\ (forall db0 tableName c0 db1 ops,
          New db0 tableName = ((Some c0, None), db1) ->
          c = exec_ops c0 ops ->
          exists t, parse (updateQuery c) = Some (Update t)
                    /\ parse (insertQuery c) = Some (Insert t)).
Proof.
  eexists. split; [apply issued_app, Put_calls|].
  split; [|split].
  - destruct (ExecContext _ _ _ _).1 as [e|res]; [by left|].
    destruct (RowsAffected res) as [[|p|p] [e|]]; auto.
  - destruct (ExecContext _ _ _ _).1 as [e|res].
    + split; [discriminate|]. intros (res & H & _). discriminate.
    + split.
      * intros H. exists res. split; [reflexivity|].
        destruct (RowsAffected res) as [[|p|p] [e|]]; try discriminate.
        reflexivity.
      * intros (res' & H & Hr). injection H as <-. by rewrite Hr.
  - intros db0 tableName c0 db1 ops H ->.
    destruct (New_exec_ops_cache_for _ _ _ _ ops H)
      as (t & _ & _ & Hi & Hu & _).
    eauto.
Qed.

Lemma Put_update_then_insert_witness :
  exists t,
    parse (updateQuery (exec_ops certsCache otherCalls)) = Some (Update t)
    /\ parse (insertQuery (exec_ops certsCache otherCalls)) = Some (Insert t).
Proof.
  destruct (Put_update_then_insert (exec_ops certsCache otherCalls)
              Background "a" b1) as (rest & _ & _ & _ & H).
  apply (H emptyDB "certs" certsCache (New emptyDB "certs").2 otherCalls).
  - vm_compute. reflexivity.
  - reflexivity.
Defined.

Example Put_calls_on_certs :
  issued (conn certsCache) (conn (Put certsCache Background "a" b1).2)
  = [Call "UPDATE certs SET data = $2 WHERE key = $1"
          [ArgString "a"; ArgBytes b1];
     Call "INSERT INTO certs (key, data) VALUES($1, $2)"
          [ArgString "a"; ArgBytes b1]]
  /\ issued (conn cacheWithA) (conn (Put cacheWithA Background "a" b2).2)
     = [Call "UPDATE certs SET data = $2 WHERE key = $1"
             [ArgString "a"; ArgBytes b2]].
Proof. vm_compute. split; reflexivity. Qed.

(** C6. After Put(k, v1) and Put(k, v2), both returning nil, Get(k)
    returns v2 with a nil error; the in-memory map is the one the second
    Put alone would leave; and when the cache's queries are the
    statements on table t, that table holds a row for k and every row
    for k carries v2. *)
Theorem Put_Put_Get c ctx1 ctx2 ctx3 k v1 v2 c1 c2 :
  Put c ctx1 k v1 = (None, c1) ->
  Put c1 ctx2 k v2 = (None, c2) ->
  Get c2 ctx3 k = ((v2, None), c2)
  /\ certs c2 = <[k := v2]> (certs c)
  /\ (forall t, cache_for t c ->
        exists rows, tables (conn c2) !! t = Some rows
          /\ In (k, v2) rows /\ forall d, In (k, d) rows -> d = v2).
Proof.
  intros H1 H2.
  pose proof (Put_ok_certs _ _ _ _ _ H1) as M1.
  pose proof (Put_ok_certs _ _ _ _ _ H2) as M2.
  split; [|split].
  - apply Get_hit. rewrite M2. apply lookup_insert_eq.
  - rewrite M2, M1. apply insert_insert_eq.
  - intros t Hc.
    assert (cache_for t c1) as (_ & Hi & Hu & _).
    { apply (cache_for_same t c); [|exact Hc].
      pose proof (Put_queries c ctx1 k v1) as Q. by rewrite H1 in Q. }
    exact (Put_ok_store c1 ctx2 k v2 c2 t Hu Hi H2).
Qed.

Lemma Put_Put_Get_witness :
  Get cacheWithA2 Background "a" = ((b2, None), cacheWithA2)
  /\ certs cacheWithA2 = <["a" := b2]> (certs certsCache)
  /\ exists rows, tables (conn cacheWithA2) !! "certs" = Some rows
       /\ In ("a", b2) rows /\ forall d, In ("a", d) rows -> d = b2.
Proof.
  destruct (Put_Put_Get certsCache Background Background Background
              "a" b1 b2 cacheWithA cacheWithA2) as (HG & HM & HS).
  - vm_compute. reflexivity.
  - vm_compute. reflexivity.
  - split; [exact HG|]. split; [exact HM|]. apply (HS "certs").
    repeat split; vm_compute; reflexivity.
Defined.

(** C7. On a cache built by New, after any sequence of calls the
    in-memory map holds an entry for a key only if some Put in the
    sequence had that key (and that payload) as its target; and Get
    leaves the in-memory map as it is, on a hit, on a store row found
    and on a miss alike. *)
Theorem certs_only_from_Put db tableName c0 db' ops :
  New db tableName = ((Some c0, None), db') ->
  (forall k v, certs (exec_ops c0 ops) !! k = Some v ->
     exists ctx, In (OpPut ctx k v) ops)
  /\ (forall ctx k,
        certs (Get (exec_ops c0 ops) ctx k).2 = certs (exec_ops c0 ops)).
Proof.
  intros HN. split; [|intros; apply Get_certs].
  apply New_ok_inv in HN as [-> _].
  induction ops as [|o ops IH] using rev_ind; intros k v.
  - cbn. by rewrite lookup_empty.
  - unfold exec_ops. rewrite fold_left_app. cbn [fold_left].
    fold (exec_ops (newCache db' tableName) ops).
    set (c := exec_ops (newCache db' tableName) ops) in *.
    assert (forall k v, certs c !! k = Some v ->
              exists ctx, In (OpPut ctx k v) (ops ++ [o])) as IH'.
    { intros k0 v0 H0. destruct (IH _ _ H0) as [ctx Hin].
      exists ctx. apply in_or_app. by left. }
    destruct o as [ctx key|ctx key data|ctx key]; cbn [step].
    + rewrite Get_certs. apply IH'.
    + destruct (decide (key = k)) as [->|Hne].
      * destruct (Put c ctx k data) as [[e|] c'] eqn:HP; cbn [snd].
        -- rewrite (Put_err_certs _ _ _ _ _ _ HP). apply IH'.
        -- rewrite (Put_ok_certs _ _ _ _ _ HP), lookup_insert_eq.
           intros [= <-]. exists ctx. apply in_or_app. right. by left.
      * rewrite Put_certs_other by exact Hne. apply IH'.
    + rewrite Delete_certs. intros H.
      apply lookup_delete_Some in H as [_ H]. by apply IH'.
Qed.

Lemma certs_only_from_Put_witness :
  (forall k v, certs (exec_ops certsCache otherCalls) !! k = Some v ->
     exists ctx, In (OpPut ctx k v) otherCalls)
  /\ (forall ctx k,
        certs (Get (exec_ops certsCache otherCalls) ctx k).2
        = certs (exec_ops certsCache otherCalls)).
Proof.
  apply (certs_only_from_Put emptyDB "certs" certsCache
           (New emptyDB "certs").2 otherCalls).
  vm_compute. reflexivity.
Defined.

(** C8. For two keys that are both absent from the in-memory map, Get
    gives the same result and leaves the same state whichever key it is
    asked for, and each call sends the single text getQuery with no
    operand: the store fetch does not depend on the key. *)
Theorem Get_ignores_key c ctx k1 k2 :
  certs c !! k1 = None ->
  certs c !! k2 = None ->
  Get c ctx k1 = Get c ctx k2
  /\ issued (conn c) (conn (Get c ctx k1).2) = [Call (getQuery c) []]
  /\ issued (conn c) (conn (Get c ctx k2).2) = [Call (getQuery c) []].
Proof.
  intros H1 H2. split; [|split].
  - by rewrite (Get_miss _ _ _ H1), (Get_miss _ _ _ H2).
  - by apply issued_app, Get_miss_calls.
  - by apply issued_app, Get_miss_calls.
Qed.

Lemma Get_ignores_key_witness :
  Get cacheWithA Background "b" = Get cacheWithA Background "c"
  /\ issued (conn cacheWithA) (conn (Get cacheWithA Background "b").2)
     = [Call (getQuery cacheWithA) []]
  /\ issued (conn cacheWithA) (conn (Get cacheWithA Background "c").2)
     = [Call (getQuery cacheWithA) []].
Proof.
  apply (Get_ignores_key cacheWithA Background "b" "c");
    vm_compute; reflexivity.
Defined.

(** C9. Whenever the store delete itself succeeds, Delete returns nil
    and the in-memory map is the old one without k (unchanged if k was
    not in it). And the store delete does succeed on a live context, a
    driver that lets the call through and an existing table, whether or
    not the table or the map holds k: zero rows affected is no error. *)
Theorem Delete_succeeds c ctx k :
  (forall res db,
      ExecContext (conn c) ctx (deleteQuery c) [ArgString k] = (inr res, db) ->
      Delete c ctx k = (None, set_conn (set_certs c (delete k (certs c))) db))
  /\ (forall t rows,
        parse (deleteQuery c) = Some (DeleteFrom t) ->
        tables (conn c) !! t = Some rows ->
        ctx_Err ctx = None -> next_runs (conn c) ->
        (Delete c ctx k).1 = None
        /\ certs (Delete c ctx k).2 !! k = None
        /\ tables (conn (Delete c ctx k).2) !! t
           = Some (filter (fun r => has_key k r = false) rows)).
Proof.
  split.
  - intros res db H. rewrite Delete_unfold. by rewrite H.
  - intros t rows Hp Ht Hc Hf.
    destruct (ExecContext_runs _ _ _ _ _ _ Hc Hf Hp (run_Delete t k _ _ Ht))
      as (res & db & He & Hdb & _).
    rewrite Delete_unfold, He. cbn [fst snd conn set_conn certs set_certs].
    split; [reflexivity|]. split; [apply lookup_delete_eq|].
    rewrite Hdb. cbn [out_tables]. apply lookup_insert_eq.
Qed.

Lemma Delete_succeeds_witness :
  ((Delete certsCache Background "never-written").1 = None
   /\ certs (Delete certsCache Background "never-written").2
        !! "never-written" = None
   /\ tables (conn (Delete certsCache Background "never-written").2)
        !! "certs" = Some [])
  /\ (Delete cacheWithA Background "a").1 = None.
Proof.
  split.
  - destruct (Delete_succeeds certsCache Background "never-written")
      as [_ H].
    apply (H "certs" []); vm_compute; reflexivity.
  - destruct (Delete_succeeds cacheWithA Background "a") as [H _].
    rewrite (H (mkResult (1, None))
               (ExecContext (conn cacheWithA) Background
                  (deleteQuery cacheWithA) [ArgString "a"]).2);
      [reflexivity|].
    vm_compute. reflexivity.
Defined.

(** C10. For a table name that consists only of white space (the empty
    name included) New returns no cache and the error
    "tableName must not be empty", and the database is untouched: no
    call is made. For any other name New sends the create statement
    with no operand; if that fails New returns no cache and that error;
    otherwise it returns a cache with an empty in-memory map whose four
    queries are the statements on a table that now exists. *)
Theorem New_checks_table_name db tableName :
  (blank tableName ->
     New db tableName
     = ((None, Some (errors_New "tableName must not be empty")), db))
  /\ (~ blank tableName ->
      issued db (New db tableName).2
        = [Call (Sprintf createFormat [tableName]) []]
      /\ (forall e db',
            Exec db (Sprintf createFormat [tableName]) [] = (inl e, db') ->
            New db tableName = ((None, Some e), db'))
      /\ (forall res db',
            Exec db (Sprintf createFormat [tableName]) [] = (inr res, db') ->
            New db tableName = ((Some (newCache db' tableName), None), db')
            /\ certs (newCache db' tableName) = ∅
            /\ exists t, cache_for t (newCache db' tableName)
                         /\ is_Some (tables db' !! t))).
Proof.
  split.
  - intros H. apply New_blank. by apply TrimSpace_blank.
  - intros H.
    assert (TrimSpace tableName <> "") as Hne
      by (intros E; by apply H, TrimSpace_blank).
    pose proof (New_not_blank db tableName Hne) as HN.
    split; [|split].
    + apply issued_app. rewrite HN.
      pose proof (ExecContext_calls db Background
                    (Sprintf createFormat [tableName]) []) as Hc.
      fold (Exec db (Sprintf createFormat [tableName]) []) in Hc.
      destruct (Exec db _ []) as [[e|res] db1]; exact Hc.
    + intros e db' He. by rewrite HN, He.
    + intros res db' He. split; [by rewrite HN, He|].
      split; [reflexivity|].
      destruct (Exec_create_ok _ _ _ _ He) as (w & Hw & Ht).
      exists w. auto using newCache_for.
Qed.

Lemma New_checks_table_name_witness :
  New emptyDB "   "
    = ((None, Some (errors_New "tableName must not be empty")), emptyDB)
  /\ New emptyDB (tab +:+ nbsp +:+ nl)
    = ((None, Some (errors_New "tableName must not be empty")), emptyDB)
  /\ issued emptyDB (New emptyDB "certs").2
     = [Call (Sprintf createFormat ["certs"]) []]
  /\ (New emptyDB "certs").1
     = (Some (newCache (New emptyDB "certs").2 "certs"), None)
  /\ (New refusingDB "certs").1
     = (None, Some (DriverError "connection refused")).
Proof.
  assert (~ blank "certs") as Hnb.
  { intros H. apply TrimSpace_blank in H. vm_compute in H. discriminate H. }
  split; [|split; [|split; [|split]]].
  - apply (proj1 (New_checks_table_name emptyDB "   ")).
    apply TrimSpace_blank. reflexivity.
  - apply (proj1 (New_checks_table_name emptyDB (tab +:+ nbsp +:+ nl))).
    apply TrimSpace_blank. reflexivity.
  - apply (proj2 (New_checks_table_name emptyDB "certs") Hnb).
  - destruct (proj2 (New_checks_table_name emptyDB "certs") Hnb)
      as (_ & _ & Hok).
    destruct (Hok (mkResult (0, None)) (New emptyDB "certs").2) as [E _].
    + vm_compute. reflexivity.
    + rewrite E. reflexivity.
  - destruct (proj2 (New_checks_table_name refusingDB "certs") Hnb)
      as (_ & Hfail & _).
    rewrite (Hfail (DriverError "connection refused")
               (New refusingDB "certs").2); [reflexivity|].
    vm_compute. reflexivity.
Defined.

(* ===================================================================== *)
(** * Further properties of the methods *)
(* ===================================================================== *)

(** ** One call on the handle, in full *)

Lemma ExecContext_done db ctx q args e :
  ctx_Err ctx = Some e ->
  ExecContext db ctx q args = (inl e, log db q args).
Proof. intros H. unfold ExecContext. by rewrite H. Qed.

Lemma QueryRowContext_done db ctx q args e :
  ctx_Err ctx = Some e ->
  QueryRowContext db ctx q args = (mkRow (inl e), log db q args).
Proof. intros H. unfold QueryRowContext. by rewrite H. Qed.

Lemma ExecContext_fault db ctx q args text fs :
  ctx_Err ctx = None -> faults db = Some text :: fs ->
  ExecContext db ctx q args
  = (inl (DriverError text),
     mkDB (tables db) fs (rows_affected_err db) (calls db ++ [Call q args])).
Proof.
  intros Hc Hf. unfold ExecContext, dispatch, next_fault. rewrite Hc.
  cbn [faults log]. rewrite Hf. reflexivity.
Qed.

Lemma QueryRowContext_fault db ctx q args text fs :
  ctx_Err ctx = None -> faults db = Some text :: fs ->
  QueryRowContext db ctx q args
  = (mkRow (inl (DriverError text)),
     mkDB (tables db) fs (rows_affected_err db) (calls db ++ [Call q args])).
Proof.
  intros Hc Hf. unfold QueryRowContext, dispatch, next_fault. rewrite Hc.
  cbn [faults log]. rewrite Hf. reflexivity.
Qed.

Lemma ExecContext_healthy db ctx q args s :
  ctx_Err ctx = None -> faults db = [] -> parse q = Some s ->
  ExecContext db ctx q args =
    match run s args (tables db) with
    | inl e =>
        (inl e, mkDB (tables db) [] (rows_affected_err db)
                     (calls db ++ [Call q args]))
    | inr o =>
        (inr (mkResult
                match rows_affected_err db with
                | Some text => (0, Some (DriverError text))
                | None => (out_affected o, None)
                end),
         mkDB (out_tables o) [] (rows_affected_err db)
              (calls db ++ [Call q args]))
    end.
Proof.
  intros Hc Hf Hp. unfold ExecContext, dispatch, next_fault. rewrite Hc.
  cbn [faults log]. rewrite Hf, Hp.
  cbn [tables rows_affected_err calls log].
  destruct (run s args (tables db)); reflexivity.
Qed.

Lemma QueryRowContext_healthy db ctx q args s :
  ctx_Err ctx = None -> faults db = [] -> parse q = Some s ->
  QueryRowContext db ctx q args =
    match run s args (tables db) with
    | inl e =>
        (mkRow (inl e), mkDB (tables db) [] (rows_affected_err db)
                             (calls db ++ [Call q args]))
    | inr o =>
        (mkRow match out_rows o with
               | [] => inl ErrNoRows
               | d :: _ => inr d
               end,
         mkDB (out_tables o) [] (rows_affected_err db)
              (calls db ++ [Call q args]))
    end.
Proof.
  intros Hc Hf Hp. unfold QueryRowContext, dispatch, next_fault. rewrite Hc.
  cbn [faults log]. rewrite Hf, Hp.
  cbn [tables rows_affected_err calls log].
  destruct (run s args (tables db)) as [e|o]; [reflexivity|].
  destruct (out_rows o); reflexivity.
Qed.

(** A call that returns an error has not changed any table. *)
Lemma ExecContext_err_tables db ctx q args e db' :
  ExecContext db ctx q args = (inl e, db') -> tables db' = tables db.
Proof.
  unfold ExecContext. destruct (ctx_Err ctx); [by intros [= _ <-]|].
  unfold dispatch. destruct (next_fault (log db q args)) as [[text|] fs];
    [by intros [= _ <-]|].
  destruct (parse q) as [s|]; [|by intros [= _ <-]].
  cbn [tables log]. destruct (run s args (tables db)); [by intros [= _ <-]|].
  discriminate.
Qed.

(** No call changes whether the driver supports RowsAffected, and a
    script of faults that is used up stays used up. *)
Lemma dispatch_driver db q args :
  rows_affected_err (dispatch db q args).2 = rows_affected_err db
  /\ (faults db = [] -> faults (dispatch db q args).2 = []).
Proof.
  unfold dispatch, next_fault.
  destruct (faults db) as [|[text|] fs] eqn:Hf; cbn;
    try (split; [reflexivity|discriminate]);
    destruct (parse q) as [s|]; try (by split);
    destruct (run s args (tables db)); by split.
Qed.

Lemma ExecContext_driver db ctx q args :
  rows_affected_err (ExecContext db ctx q args).2 = rows_affected_err db
  /\ (faults db = [] -> faults (ExecContext db ctx q args).2 = []).
Proof.
  unfold ExecContext. destruct (ctx_Err ctx); [by split|].
  pose proof (dispatch_driver (log db q args) q args) as H.
  destruct (dispatch (log db q args) q args) as [[e|o] db']; exact H.
Qed.

Lemma QueryRowContext_driver db ctx q args :
  rows_affected_err (QueryRowContext db ctx q args).2 = rows_affected_err db
  /\ (faults db = [] -> faults (QueryRowContext db ctx q args).2 = []).
Proof.
  unfold QueryRowContext. destruct (ctx_Err ctx); [by split|].
  pose proof (dispatch_driver (log db q args) q args) as H.
  destruct (dispatch (log db q args) q args) as [[e|o] db']; [exact H|].
  destruct (out_rows o); exact H.
Qed.

(** ** Get *)

Lemma QueryRowContext_Select_tables db ctx q t :
  parse q = Some (Select t) ->
  tables (QueryRowContext db ctx q []).2 = tables db.
Proof.
  intros Hp. unfold QueryRowContext. destruct (ctx_Err ctx); [reflexivity|].
  unfold dispatch. destruct (next_fault (log db q [])) as [[text|] fs];
    [reflexivity|].
  rewrite Hp. cbn [tables log run].
  destruct (tables db !! t) as [rows|]; [|reflexivity].
  cbn [out_rows out_tables]. destruct (map snd rows); reflexivity.
Qed.

Lemma Get_tables c ctx k t :
  parse (getQuery c) = Some (Select t) ->
  tables (conn (Get c ctx k).2) = tables (conn c).
Proof.
  intros Hp. unfold Get. destruct (certs c !! k) as [d|]; [reflexivity|].
  pose proof (QueryRowContext_Select_tables (conn c) ctx _ t Hp) as H.
  destruct (QueryRowContext _ _ _ _) as [row db].
  destruct (Scan row []) as [data err].
  destruct (decide (err = Some ErrNoRows)); exact H.
Qed.

(** X1. Get is read-only: on a cache whose getQuery is the SELECT on its
    table, a Get (hit or miss, whatever the context and the driver do)
    changes neither the in-memory map nor any table. *)
Theorem Get_read_only c ctx k t :
  parse (getQuery c) = Some (Select t) ->
  certs (Get c ctx k).2 = certs c
  /\ tables (conn (Get c ctx k).2) = tables (conn c).
Proof.
  intros Hp. split.
  - apply Get_certs.
  - by apply (Get_tables c ctx k t).
Qed.

Lemma Get_read_only_witness :
  certs (Get cacheWithA Background "b").2 = certs cacheWithA
  /\ tables (conn (Get cacheWithA Background "b").2)
     = tables (conn cacheWithA).
Proof.
  apply (Get_read_only cacheWithA Background "b" "certs").
  vm_compute. reflexivity.
Defined.

Lemma Get_miss_rows c ctx k t rows :
  cache_for t c -> certs c !! k = None ->
  ctx_Err ctx = None -> next_runs (conn c) ->
  tables (conn c) !! t = Some rows ->
  (Get c ctx k).1 =
    match rows with
    | [] => ([], Some ErrCacheMiss)
    | r :: _ => (r.2, None)
    end.
Proof.
  intros (Hg & _) Hk Hc Hf Ht. rewrite (Get_miss _ _ _ Hk).
  pose proof (QueryRowContext_first _ _ _ _ _ Hc Hf Hg Ht) as Hq.
  destruct (QueryRowContext _ _ _ _) as [row db]. cbn [fst] in Hq.
  subst row. destruct rows; reflexivity.
Qed.

(** X2. What a Get that misses the in-memory map returns when the store
    answers: the payload of the first row of the table, whatever its
    key, with a nil error; ErrCacheMiss exactly when the table has no
    row at all. *)
Theorem Get_miss_result c ctx k t rows :
  cache_for t c -> certs c !! k = None ->
  ctx_Err ctx = None -> next_runs (conn c) ->
  tables (conn c) !! t = Some rows ->
  (Get c ctx k).1 =
    match rows with
    | [] => ([], Some ErrCacheMiss)
    | r :: _ => (r.2, None)
    end
  /\ ((Get c ctx k).1.2 = Some ErrCacheMiss <-> rows = []).
Proof.
  intros Hc Hk Hctx Hf Ht.
  pose proof (Get_miss_rows c ctx k t rows Hc Hk Hctx Hf Ht) as E.
  split; [exact E|]. rewrite E. destruct rows; cbn; split; congruence.
Qed.

Lemma Get_miss_result_witness :
  ((Get cacheWithA Background "b").1 = (b1, None)
   /\ ((Get cacheWithA Background "b").1.2 = Some ErrCacheMiss
       <-> [("a", b1)] = []))
  /\ (Get certsCache Background "b").1 = ([], Some ErrCacheMiss).
Proof.
  split.
  - apply (Get_miss_result cacheWithA Background "b" "certs" [("a", b1)]);
      try (vm_compute; reflexivity).
    repeat split; vm_compute; reflexivity.
  - apply (Get_miss_result certsCache Background "b" "certs" []);
      try (vm_compute; reflexivity).
    repeat split; vm_compute; reflexivity.
Defined.

(** X3. A Get that misses the in-memory map passes the store's failure
    on with no payload: under a done context it returns ctx.Err(), and
    when the driver fails the call it returns the driver's error; in
    neither case does it report ErrCacheMiss. *)
Theorem Get_miss_store_error c ctx k :
  certs c !! k = None ->
  (forall e, ctx_Err ctx = Some e -> (Get c ctx k).1 = ([], Some e))
  /\ (forall text fs,
        ctx_Err ctx = None -> faults (conn c) = Some text :: fs ->
        (Get c ctx k).1 = ([], Some (DriverError text))).
Proof.
  intros Hk. split.
  - intros e He. rewrite (Get_miss _ _ _ Hk).
    rewrite (QueryRowContext_done _ _ _ _ _ He). cbn.
    destruct ctx; cbn in He; try discriminate; injection He as <-;
      reflexivity.
  - intros text fs Hc Hf. rewrite (Get_miss _ _ _ Hk).
    rewrite (QueryRowContext_fault _ _ _ _ _ _ Hc Hf). reflexivity.
Qed.

Lemma Get_miss_store_error_witness :
  (Get cacheWithA CtxDeadlineExceeded "b").1 = ([], Some DeadlineExceeded)
  /\ (Get (secondCallFails cacheWithA) Background "b").1 = (b1, None)
  /\ (Get (set_conn cacheWithA refusingDB) Background "b").1
     = ([], Some (DriverError "connection refused")).
Proof.
  split; [|split].
  - apply (proj1 (Get_miss_store_error cacheWithA CtxDeadlineExceeded "b"
                    ltac:(vm_compute; reflexivity))).
    reflexivity.
  - vm_compute. reflexivity.
  - apply (proj2 (Get_miss_store_error (set_conn cacheWithA refusingDB)
                    Background "b" ltac:(vm_compute; reflexivity))
             "connection refused" []); reflexivity.
Defined.

(** ** Put *)







(** ** Writes under one key leave the rows under other keys alone *)

Lemma filter_set_data k k' v (rows : list (string * bytes)) :
  k' <> k ->
  filter (fun r => has_key k r = true) (map (set_data k' v) rows)
  = filter (fun r => has_key k r = true) rows.
Proof.
  intros Hne. induction rows as [|[kr d] rows IH]; [reflexivity|].
  cbn [map]. rewrite !filter_cons, IH. unfold set_data.
  destruct (has_key k' (kr, d)) eqn:H'.
  - apply has_key_true in H'. cbn in H'. subst kr.
    rewrite !decide_False; [reflexivity|..];
      rewrite has_key_true; cbn; congruence.
  - reflexivity.
Qed.

Lemma filter_appended k k' v (rows : list (string * bytes)) :
  k' <> k ->
  filter (fun r => has_key k r = true) (rows ++ [(k', v)])
  = filter (fun r => has_key k r = true) rows.
Proof.
  intros Hne. rewrite filter_app, filter_cons, decide_False.
  - by rewrite filter_nil, app_nil_r.
  - rewrite has_key_true. cbn. congruence.
Qed.

Lemma filter_deleted k k' (rows : list (string * bytes)) :
  k' <> k ->
  filter (fun r => has_key k r = true)
         (filter (fun r => has_key k' r = false) rows)
  = filter (fun r => has_key k r = true) rows.
Proof.
  intros Hne. induction rows as [|[kr d] rows IH]; [reflexivity|].
  rewrite !filter_cons.
  destruct (has_key k' (kr, d)) eqn:H'.
  - apply has_key_true in H'. cbn in H'. subst kr.
    rewrite (decide_False (P := true = false)) by discriminate.
    rewrite decide_False; [exact IH|].
    rewrite has_key_true. cbn. congruence.
  - rewrite (decide_True (P := false = false)) by reflexivity.
    rewrite filter_cons, IH. reflexivity.
Qed.

Lemma rows_of_insert tbls t t' k rows rows' :
  tbls !! t' = Some rows ->
  filter (fun r => has_key k r = true) rows'
  = filter (fun r => has_key k r = true) rows ->
  rows_of (<[t' := rows']> tbls) t k = rows_of tbls t k.
Proof.
  intros Ht Hf. unfold rows_of. destruct (decide (t' = t)) as [->|Hne].
  - by rewrite lookup_insert_eq, Ht.
  - by rewrite lookup_insert_ne.
Qed.

(** Any statement that ran with first operand [k'] kept the rows under
    every other key, in every table. *)
Lemma run_frame s k' rest tbls o t k :
  run s (ArgString k' :: rest) tbls = inr o -> k' <> k ->
  rows_of (out_tables o) t k = rows_of tbls t k.
Proof.
  intros Hr Hne.
  destruct s as [t'|t'|t'|t'|t']; cbn in Hr;
    try discriminate;
    repeat match type of Hr with
      | match ?x with _ => _ end = _ => destruct x eqn:?; try discriminate
      end;
    injection Hr as <-; cbn [out_tables];
    eapply rows_of_insert; eauto using filter_set_data, filter_appended,
      filter_deleted.
Qed.

Lemma ExecContext_frame db ctx q k' rest r db' t k :
  ExecContext db ctx q (ArgString k' :: rest) = (r, db') -> k' <> k ->
  rows_of (tables db') t k = rows_of (tables db) t k.
Proof.
  intros He Hne. destruct r as [e|res].
  - by rewrite (ExecContext_err_tables _ _ _ _ _ _ He).
  - apply ExecContext_ok_inv in He as (s & o & _ & Hrun & -> & _).
    by eapply run_frame.
Qed.

Lemma Put_frame c ctx k' v t k :
  k' <> k ->
  rows_of (tables (conn (Put c ctx k' v).2)) t k
  = rows_of (tables (conn c)) t k.
Proof.
  intros Hne.
  destruct (Put_run c ctx k' v) as
    [e db Eu|res db n e Eu Er|res db e db' Eu Er Ei
     |res db res' db' Eu Er Ei|res db n Eu Er Hn];
    cbn [snd conn set_conn set_certs];
    try (by eapply ExecContext_frame);
    (etrans; [by eapply ExecContext_frame|by eapply ExecContext_frame]).
Qed.

Lemma Delete_frame c ctx k' t k :
  k' <> k ->
  rows_of (tables (conn (Delete c ctx k').2)) t k
  = rows_of (tables (conn c)) t k.
Proof.
  intros Hne. rewrite Delete_unfold.
  destruct (ExecContext _ _ _ _) as [[e|res] db] eqn:He;
    cbn [snd conn set_conn set_certs]; by eapply ExecContext_frame.
Qed.

(** X5. Put and Delete on one key never touch what the table holds under
    another key: whatever the context and the driver do, and whether the
    call succeeds or fails, the rows stored under a key k other than the
    target are the same before and after, and so is the in-memory entry
    for k. *)
Theorem write_keeps_other_keys c ctx k' v t k :
  k' <> k ->
  (rows_of (tables (conn (Put c ctx k' v).2)) t k
     = rows_of (tables (conn c)) t k
   /\ certs (Put c ctx k' v).2 !! k = certs c !! k)
  /\ (rows_of (tables (conn (Delete c ctx k').2)) t k
        = rows_of (tables (conn c)) t k
      /\ certs (Delete c ctx k').2 !! k = certs c !! k).
Proof.
  intros Hne. split; split.
  - by apply Put_frame.
  - by apply Put_certs_other.
  - by apply Delete_frame.
  - rewrite Delete_certs. by apply lookup_delete_ne.
Qed.

Lemma write_keeps_other_keys_witness :
  rows_of (tables (conn (Put cacheWithA Background "b" b2).2)) "certs" "a"
  = rows_of (tables (conn cacheWithA)) "certs" "a"
  /\ rows_of (tables (conn (Delete cacheWithA Background "b").2)) "certs" "a"
     = rows_of (tables (conn cacheWithA)) "certs" "a".
Proof.
  destruct (write_keeps_other_keys cacheWithA Background "b" b2 "certs" "a")
    as [[H1 _] [H2 _]]; [discriminate|].
  split; [exact H1|exact H2].
Defined.

(** ** The in-memory map stays within the table *)

Lemma ExecContext_driver_eq db ctx q args r db' :
  ExecContext db ctx q args = (r, db') ->
  rows_affected_err db' = rows_affected_err db
  /\ (faults db = [] -> faults db' = []).
Proof.
  intros H. pose proof (ExecContext_driver db ctx q args) as D.
  by rewrite H in D.
Qed.

Lemma Put_driver c ctx k v :
  rows_affected_err (conn (Put c ctx k v).2) = rows_affected_err (conn c)
  /\ (faults (conn c) = [] -> faults (conn (Put c ctx k v).2) = []).
Proof.
  destruct (Put_run c ctx k v) as
    [e db Eu|res db n e Eu Er|res db e db' Eu Er Ei
     |res db res' db' Eu Er Ei|res db n Eu Er Hn];
    cbn [snd conn set_conn set_certs];
    apply ExecContext_driver_eq in Eu as [Hu1 Hu2];
    try (apply ExecContext_driver_eq in Ei as [Hi1 Hi2]);
    split; try congruence; auto.
Qed.

Lemma Get_driver c ctx k :
  rows_affected_err (conn (Get c ctx k).2) = rows_affected_err (conn c)
  /\ (faults (conn c) = [] -> faults (conn (Get c ctx k).2) = []).
Proof.
  unfold Get. destruct (certs c !! k); [by split|].
  pose proof (QueryRowContext_driver (conn c) ctx (getQuery c) []) as D.
  destruct (QueryRowContext _ _ _ _) as [row db].
  destruct (Scan row []) as [data err].
  destruct (decide (err = Some ErrNoRows)); exact D.
Qed.

Lemma Delete_driver c ctx k :
  rows_affected_err (conn (Delete c ctx k).2) = rows_affected_err (conn c)
  /\ (faults (conn c) = [] -> faults (conn (Delete c ctx k).2) = []).
Proof.
  rewrite Delete_unfold.
  pose proof (ExecContext_driver (conn c) ctx (deleteQuery c) [ArgString k])
    as D.
  destruct (ExecContext _ _ _ _) as [[e|res] db]; exact D.
Qed.

Lemma step_driver c o :
  rows_affected_err (conn (step c o)) = rows_affected_err (conn c)
  /\ (faults (conn c) = [] -> faults (conn (step c o)) = []).
Proof.
  destruct o; cbn [step]; auto using Get_driver, Put_driver, Delete_driver.
Qed.

Lemma In_rows_of tbls t k v rows :
  tbls !! t = Some rows -> In (k, v) rows -> In (k, v) (rows_of tbls t k).
Proof.
  intros Ht Hin. unfold rows_of. rewrite Ht.
  apply list_elem_of_In, list_elem_of_filter. split.
  - apply has_key_true. reflexivity.
  - by apply list_elem_of_In.
Qed.

Lemma rows_of_In tbls t k r :
  In r (rows_of tbls t k) ->
  exists rows, tbls !! t = Some rows /\ In r rows /\ r.1 = k.
Proof.
  unfold rows_of. destruct (tbls !! t) as [rows|]; [|intros []].
  intros H. apply list_elem_of_In, list_elem_of_filter in H as [Hk Hin].
  exists rows. split; [reflexivity|]. split.
  - by apply list_elem_of_In.
  - by apply has_key_true.
Qed.

Lemma Put_coherent t c ctx k v :
  cache_for t c -> rows_affected_err (conn c) = None ->
  coherent t c -> coherent t (Put c ctx k v).2.
Proof.
  intros Hc Hra Hco k0 v0. destruct (decide (k = k0)) as [<-|Hne].
  2:{ rewrite (Put_frame c ctx k v t k0 Hne),
        (Put_certs_other c ctx k v k0 Hne).
      apply Hco. }
  destruct Hc as (_ & Hi & Hu & _).
  destruct (Put c ctx k v) as [[e|] c'] eqn:HP; cbn [snd].
  - (* a failed Put *)
    rewrite (Put_err_certs _ _ _ _ _ _ HP). intros Hk.
    pose proof (Hco _ _ Hk) as Hin.
    pose proof (Put_run c ctx k v) as R. rewrite HP in R.
    inversion R as [e' db Eu|res db n e' Eu Er|res db e' db' Eu Er Ei| |];
      subst; cbn [conn set_conn].
    + by rewrite (ExecContext_err_tables _ _ _ _ _ _ Eu).
    + apply ExecContext_ok_inv in Eu as (s & o & _ & _ & _ & _ & Hres).
      rewrite Hra, Er in Hres. discriminate.
    + exfalso.
      apply ExecContext_ok_inv in Eu as (s & o & Hs & Hrun & _ & _ & Hres).
      rewrite Hu in Hs. injection Hs as <-.
      apply run_Update_inv in Hrun as (rows & Hrows & _ & Haff).
      rewrite Hra, Er in Hres. injection Hres as Hz.
      apply rows_of_In in Hin as (rows' & Hrows' & Hin & _).
      rewrite Hrows in Hrows'. injection Hrows' as <-.
      exact (count_key_zero k rows ltac:(congruence) v0 Hin).
  - (* a Put that returned nil *)
    rewrite (Put_ok_certs _ _ _ _ _ HP), lookup_insert_eq. intros [= <-].
    destruct (Put_ok_store c ctx k v c' t Hu Hi HP) as (rows & Ht & Hin & _).
    by eapply In_rows_of.
Qed.

Lemma step_coherent t c o :
  cache_for t c -> rows_affected_err (conn c) = None ->
  coherent t c -> coherent t (step c o).
Proof.
  intros Hc Hra Hco. destruct o as [ctx key|ctx key data|ctx key];
    cbn [step].
  - destruct Hc as (Hg & _).
    intros k v. rewrite Get_certs, (Get_tables c ctx key t Hg). apply Hco.
  - by apply Put_coherent.
  - intros k v. rewrite Delete_certs.
    intros [Hne Hk]%lookup_delete_Some.
    rewrite (Delete_frame c ctx key t k Hne). by apply Hco.
Qed.

Lemma exec_ops_coherent t ops c :
  cache_for t c -> rows_affected_err (conn c) = None ->
  coherent t c -> coherent t (exec_ops c ops).
Proof.
  revert c. induction ops as [|o ops IH]; intros c Hc Hra Hco; [exact Hco|].
  cbn [exec_ops fold_left]. fold (exec_ops (step c o) ops).
  apply IH.
  - apply (cache_for_same t c); [|exact Hc].
    destruct o; cbn [step];
      auto using Get_queries, Put_queries, Delete_queries.
  - by rewrite (proj1 (step_driver c o)).
  - by apply step_coherent.
Qed.

(** X6. The in-memory map is never ahead of the table. On a cache built
    by New over a driver that supports RowsAffected, after any sequence
    of Get, Put and Delete calls (failing or not, under any contexts and
    driver faults), every entry (k, v) of the in-memory map is among the
    rows stored under k in the cache's table. *)
Theorem map_within_table db tableName c0 db' ops :
  New db tableName = ((Some c0, None), db') ->
  rows_affected_err db = None ->
  exists t,
    String.words tableName = [t]
    /\ forall k v,
         certs (exec_ops c0 ops) !! k = Some v ->
         In (k, v) (rows_of (tables (conn (exec_ops c0 ops))) t k).
Proof.
  intros HN Hra.
  assert (rows_affected_err db' = None) as Hra'.
  { destruct (decide (TrimSpace tableName = "")) as [Hb|Hb].
    { rewrite New_blank in HN by exact Hb. discriminate. }
    rewrite New_not_blank in HN by exact Hb. unfold Exec in HN.
    pose proof (ExecContext_driver db Background
                  (Sprintf createFormat [tableName]) []) as [D _].
    destruct (ExecContext _ _ _ _) as [[e|res] db1]; [discriminate|].
    injection HN as _ <-. cbn in D. congruence. }
  apply New_ok_inv in HN as (-> & t & Hw & Hc & _).
  exists t. split; [exact Hw|].
  apply (exec_ops_coherent t ops (newCache db' tableName) Hc Hra').
  intros k v. cbn. by rewrite lookup_empty.
Qed.

Lemma map_within_table_witness :
  exists t,
    String.words "certs" = [t]
    /\ forall k v,
         certs (exec_ops certsCache moreCalls) !! k = Some v ->
         In (k, v) (rows_of (tables (conn (exec_ops certsCache moreCalls)))
                            t k).
Proof.
  apply (map_within_table emptyDB "certs" certsCache (New emptyDB "certs").2
           moreCalls).
  - vm_compute. reflexivity.
  - reflexivity.
Defined.

(** ** Calls under a context that is already done *)

(** X7. Under a context that is already cancelled or past its deadline,
    Put and Delete return ctx.Err() and no table changes. Put makes its
    one UPDATE call, no INSERT, and leaves the in-memory map as it was;
    Delete has already removed the key from the in-memory map. *)
Theorem done_context_writes c ctx k v e :
  ctx_Err ctx = Some e ->
  ((Put c ctx k v).1 = Some e
   /\ certs (Put c ctx k v).2 = certs c
   /\ tables (conn (Put c ctx k v).2) = tables (conn c)
   /\ issued (conn c) (conn (Put c ctx k v).2)
      = [Call (updateQuery c) [ArgString k; ArgBytes v]])
  /\ ((Delete c ctx k).1 = Some e
      /\ certs (Delete c ctx k).2 = delete k (certs c)
      /\ tables (conn (Delete c ctx k).2) = tables (conn c)).
Proof.
  intros He. split.
  - unfold Put. rewrite (ExecContext_done _ _ _ _ _ He).
    cbn [fst snd certs conn set_conn tables log]. repeat split.
    apply issued_app. reflexivity.
  - rewrite Delete_unfold, (ExecContext_done _ _ _ _ _ He).
    cbn [fst snd certs conn set_conn set_certs tables log]. by repeat split.
Qed.

Lemma done_context_writes_witness :
  (Put cacheWithA CtxDeadlineExceeded "a" b2).1 = Some DeadlineExceeded
  /\ (Delete cacheWithA CtxCanceled "a").1 = Some Canceled
  /\ tables (conn (Delete cacheWithA CtxCanceled "a").2)
     = tables (conn cacheWithA).
Proof.
  destruct (done_context_writes cacheWithA CtxDeadlineExceeded "a" b2
              DeadlineExceeded eq_refl) as [(HP & _) _].
  destruct (done_context_writes cacheWithA CtxCanceled "a" b2
              Canceled eq_refl) as [_ (HD & _ & HT)].
  split; [exact HP|]. split; [exact HD|exact HT].
Defined.

(** ** Delete *)

Lemma Delete_healthy c ctx k t rows :
  cache_for t c -> ctx_Err ctx = None -> faults (conn c) = [] ->
  tables (conn c) !! t = Some rows ->
  (Delete c ctx k).1 = None
  /\ certs (Delete c ctx k).2 = delete k (certs c)
  /\ tables (conn (Delete c ctx k).2)
     = <[t := filter (fun r => has_key k r = false) rows]> (tables (conn c))
  /\ faults (conn (Delete c ctx k).2) = [].
Proof.
  intros (_ & _ & _ & Hd) Hc Hf Ht.
  rewrite Delete_unfold, (ExecContext_healthy _ _ _ _ _ Hc Hf Hd).
  rewrite (run_Delete _ _ _ _ Ht). by repeat split.
Qed.

Lemma same_queries_Delete_for t c ctx k :
  cache_for t c -> cache_for t (Delete c ctx k).2.
Proof. apply cache_for_same, Delete_queries. Qed.

(** X8. Delete and then Get of the same key, on a store that answers:
    Delete returns nil and removes the rows under k; the Get that
    follows misses the in-memory map and returns the payload of the
    first remaining row, which belongs to another key. It reports
    ErrCacheMiss exactly when the table held rows under no key other
    than k. *)
Theorem Delete_then_Get c ctx ctx' k t rows :
  cache_for t c -> ctx_Err ctx = None -> ctx_Err ctx' = None ->
  faults (conn c) = [] ->
  tables (conn c) !! t = Some rows ->
  (Delete c ctx k).1 = None
  /\ (Get (Delete c ctx k).2 ctx' k).1 =
       match filter (fun r => has_key k r = false) rows with
       | [] => ([], Some ErrCacheMiss)
       | r :: _ => (r.2, None)
       end
  /\ ((Get (Delete c ctx k).2 ctx' k).1.2 = Some ErrCacheMiss
      <-> forall r, In r rows -> r.1 = k).
Proof.
  intros Hc Hctx Hctx' Hf Ht.
  destruct (Delete_healthy c ctx k t rows Hc Hctx Hf Ht)
    as (Hr & Hm & Htb & Hf').
  assert ((Get (Delete c ctx k).2 ctx' k).1 =
            match filter (fun r => has_key k r = false) rows with
            | [] => ([], Some ErrCacheMiss)
            | r :: _ => (r.2, None)
            end) as E.
  { apply (Get_miss_rows _ ctx' k t).
    - by apply same_queries_Delete_for.
    - rewrite Hm. apply lookup_delete_eq.
    - exact Hctx'.
    - unfold next_runs, next_fault. by rewrite Hf'.
    - rewrite Htb. apply lookup_insert_eq. }
  split; [exact Hr|]. split; [exact E|]. rewrite E.
  destruct (filter (fun r => has_key k r = false) rows) as [|r0 rest] eqn:Hfil.
  - split; [|reflexivity]. intros _ r Hin.
    destruct (has_key k r) eqn:Hk; [by apply has_key_true|].
    exfalso. assert (r ∈ filter (fun r => has_key k r = false) rows) as Hr0.
    { apply list_elem_of_filter. split; [exact Hk|by apply list_elem_of_In]. }
    rewrite Hfil in Hr0. by apply elem_of_nil in Hr0.
  - split; [discriminate|]. intros Hall. exfalso.
    assert (r0 ∈ filter (fun r => has_key k r = false) rows) as Hr0
      by (rewrite Hfil; left).
    apply list_elem_of_filter in Hr0 as [Hk Hin].
    apply list_elem_of_In, Hall, has_key_true in Hin. congruence.
Qed.

Lemma Delete_then_Get_witness :
  (Get (Delete cacheWithA Background "a").2 Background "a").1
    = ([], Some ErrCacheMiss)
  /\ (Get (Delete (Put cacheWithA Background "b" b2).2 Background "a").2
          Background "a").1 = (b2, None).
Proof.
  split.
  - destruct (Delete_then_Get cacheWithA Background Background "a" "certs"
                [("a", b1)]) as (_ & E & _);
      [repeat split; vm_compute; reflexivity|reflexivity..|].
    exact E.
  - destruct (Delete_then_Get (Put cacheWithA Background "b" b2).2
                Background Background "a" "certs" [("a", b1); ("b", b2)])
      as (_ & E & _);
      [repeat split; vm_compute; reflexivity|reflexivity..|].
    exact E.
Defined.

(** X9. Delete is idempotent on a store that answers: a second Delete of
    the same key also returns nil and changes neither the in-memory map
    nor any table. *)
Theorem Delete_twice c ctx ctx' k t rows :
  cache_for t c -> ctx_Err ctx = None -> ctx_Err ctx' = None ->
  faults (conn c) = [] ->
  tables (conn c) !! t = Some rows ->
  (Delete (Delete c ctx k).2 ctx' k).1 = None
  /\ certs (Delete (Delete c ctx k).2 ctx' k).2 = certs (Delete c ctx k).2
  /\ tables (conn (Delete (Delete c ctx k).2 ctx' k).2)
     = tables (conn (Delete c ctx k).2).
Proof.
  intros Hc Hctx Hctx' Hf Ht.
  destruct (Delete_healthy c ctx k t rows Hc Hctx Hf Ht)
    as (_ & Hm & Htb & Hf').
  assert (tables (conn (Delete c ctx k).2) !! t
          = Some (filter (fun r => has_key k r = false) rows)) as Ht'
    by (rewrite Htb; apply lookup_insert_eq).
  destruct (Delete_healthy (Delete c ctx k).2 ctx' k t _
              (same_queries_Delete_for t c ctx k Hc) Hctx' Hf' Ht')
    as (Hr2 & Hm2 & Htb2 & _).
  split; [exact Hr2|]. split.
  - rewrite Hm2, Hm. apply delete_id, lookup_delete_eq.
  - rewrite Htb2. rewrite list_filter_filter.
    apply insert_id. rewrite Ht'. f_equal.
    apply list_filter_iff. intros r. tauto.
Qed.

Lemma Delete_twice_witness :
  (Delete (Delete cacheWithA Background "a").2 Background "a").1 = None
  /\ tables (conn (Delete (Delete cacheWithA Background "a").2
                          Background "a").2)
     = tables (conn (Delete cacheWithA Background "a").2).
Proof.
  destruct (Delete_twice cacheWithA Background Background "a" "certs"
              [("a", b1)]) as (H1 & _ & H3);
    [repeat split; vm_compute; reflexivity|reflexivity..|].
  split; [exact H1|exact H3].
Defined.

(** ** New on a store that answers *)



(** ** Put repeated *)






(* ===================================================================== *)
(** * The first variant *)
(* ===================================================================== *)

Example V1_New_certs :
  V1.New emptyDB "certs" = ((Some v1Cache, None), V1.conn v1Cache).
Proof. vm_compute. reflexivity. Qed.

Example V1_end_to_end :
  (V1.Put v1Cache Background "example.org" b1).1 = None
  /\ (V1.Get (V1.Put v1Cache Background "example.org" b1).2
             Background "example.org").1 = (b1, None)
  /\ (V1.Delete (V1.Put v1Cache Background "example.org" b1).2
                Background "example.org").1 = None
  /\ (V1.Get (V1.Delete (V1.Put v1Cache Background "example.org" b1).2
                        Background "example.org").2
             Background "example.org").1 = ([], Some ErrCacheMiss).
Proof. vm_compute. repeat split; reflexivity. Qed.

Example V1_second_key_reads_first :
  (V1.Get (V1.Put (V1.Put v1Cache Background "a" b1).2 Background "b" b2).2
          Background "b").1 = (b1, None).
Proof. vm_compute. reflexivity. Qed.

(** ** The query texts of the first variant *)




Lemma V1_parse_select t w :
  String.words t = [w] ->
  V1.parse (Sprintf "SELECT data FROM %s" [t]) = Some (V1.Plain (Select w)).
Proof.
  intros H. unfold V1.parse. rewrite (parse_select t w H).
  rewrite words_select, H. cbn [app]. parse_miss. reflexivity.
Qed.

Lemma V1_parse_delete t w :
  String.words t = [w] ->
  V1.parse (Sprintf "DELETE FROM %s WHERE key = $1" [t])
  = Some (V1.Plain (DeleteFrom w)).
Proof.
  intros H. unfold V1.parse. rewrite (parse_delete t w H).
  rewrite words_delete, H. cbn [app]. parse_miss. reflexivity.
Qed.


(** ** One call of the first variant on the handle *)

Lemma V1_ExecContext_done db ctx q args e :
  ctx_Err ctx = Some e ->
  V1.ExecContext db ctx q args = (inl e, log db q args).
Proof. intros H. unfold V1.ExecContext. by rewrite H. Qed.

Lemma V1_ExecContext_fault db ctx q args text fs :
  ctx_Err ctx = None -> faults db = Some text :: fs ->
  V1.ExecContext db ctx q args
  = (inl (DriverError text),
     mkDB (tables db) fs (rows_affected_err db) (calls db ++ [Call q args])).
Proof.
  intros Hc Hf. unfold V1.ExecContext, V1.dispatch, next_fault. rewrite Hc.
  cbn [faults log]. rewrite Hf. reflexivity.
Qed.

Lemma V1_ExecContext_runs db ctx q args s :
  ctx_Err ctx = None -> next_runs db -> V1.parse q = Some s ->
  V1.ExecContext db ctx q args =
    match V1.run s args (tables db) with
    | inl e =>
        (inl e, mkDB (tables db) (tail (faults db)) (rows_affected_err db)
                     (calls db ++ [Call q args]))
    | inr o =>
        (inr (mkResult
                match rows_affected_err db with
                | Some text => (0, Some (DriverError text))
                | None => (out_affected o, None)
                end),
         mkDB (out_tables o) (tail (faults db)) (rows_affected_err db)
              (calls db ++ [Call q args]))
    end.
Proof.
  intros Hc Hf Hp. unfold V1.ExecContext, V1.dispatch. rewrite Hc.
  unfold next_runs, next_fault in Hf. unfold next_fault. cbn [faults log].
  destruct (faults db) as [|f fs]; cbn in Hf; subst; rewrite Hp;
    cbn [tables rows_affected_err calls log tail];
    destruct (V1.run s args (tables db)); reflexivity.
Qed.

Lemma V1_QueryRowContext_runs db ctx q args s :
  ctx_Err ctx = None -> next_runs db -> V1.parse q = Some s ->
  V1.QueryRowContext db ctx q args =
    match V1.run s args (tables db) with
    | inl e =>
        (mkRow (inl e),
         mkDB (tables db) (tail (faults db)) (rows_affected_err db)
              (calls db ++ [Call q args]))
    | inr o =>
        (mkRow match out_rows o with
               | [] => inl ErrNoRows
               | d :: _ => inr d
               end,
         mkDB (out_tables o) (tail (faults db)) (rows_affected_err db)
              (calls db ++ [Call q args]))
    end.
Proof.
  intros Hc Hf Hp. unfold V1.QueryRowContext, V1.dispatch. rewrite Hc.
  unfold next_runs, next_fault in Hf. unfold next_fault. cbn [faults log].
  destruct (faults db) as [|f fs]; cbn in Hf; subst; rewrite Hp;
    cbn [tables rows_affected_err calls log tail];
    (destruct (V1.run s args (tables db)) as [e|o]; [reflexivity|]);
    destruct (out_rows o); reflexivity.
Qed.

(** ** Get of the first variant *)

(** X12. In the first variant Get never looks at its key: for any two
    keys it returns the same result and leaves the same state. When the
    store answers, that result is the payload of the first row of the
    table with a nil error, or ErrCacheMiss when the table has no row. *)
Theorem V1_Get_ignores_key c ctx k1 k2 :
  V1.Get c ctx k1 = V1.Get c ctx k2
  /\ (forall t rows,
        String.words (V1.tableName c) = [t] ->
        ctx_Err ctx = None -> next_runs (V1.conn c) ->
        tables (V1.conn c) !! t = Some rows ->
        (V1.Get c ctx k1).1 =
          match rows with
          | [] => ([], Some ErrCacheMiss)
          | r :: _ => (r.2, None)
          end
        /\ tables (V1.conn (V1.Get c ctx k1).2) = tables (V1.conn c)).
Proof.
  split; [reflexivity|].
  intros t rows Hw Hc Hf Ht. unfold V1.Get.
  rewrite (V1_QueryRowContext_runs _ _ _ _ _ Hc Hf (V1_parse_select _ _ Hw)).
  cbn [V1.run run]. rewrite Ht. cbn [out_rows out_tables].
  destruct rows as [|r rows]; cbn; by split.
Qed.

Lemma V1_Get_ignores_key_witness :
  (V1.Get (V1.Put v1Cache Background "a" b1).2 Background "b").1
  = (b1, None).
Proof.
  destruct (V1_Get_ignores_key (V1.Put v1Cache Background "a" b1).2
              Background "b" "a") as [_ H].
  destruct (H "certs" [("a", b1)]) as [E _];
    [reflexivity|reflexivity|reflexivity|vm_compute; reflexivity|].
  exact E.
Defined.

(** ** Put of the first variant *)







(** ** Delete of the first variant *)

(** X15. Delete of the first variant, when the store answers, returns
    nil whether or not a row for the key exists; afterwards the table
    holds no row under k and the rows under every other key are as
    before. *)
Theorem V1_Delete_removes c ctx k t rows :
  String.words (V1.tableName c) = [t] ->
  ctx_Err ctx = None -> next_runs (V1.conn c) ->
  tables (V1.conn c) !! t = Some rows ->
  (V1.Delete c ctx k).1 = None
  /\ tables (V1.conn (V1.Delete c ctx k).2)
     = <[t := filter (fun r => has_key k r = false) rows]>
         (tables (V1.conn c))
  /\ rows_of (tables (V1.conn (V1.Delete c ctx k).2)) t k = []
  /\ (forall k', k <> k' ->
        rows_of (tables (V1.conn (V1.Delete c ctx k).2)) t k'
        = rows_of (tables (V1.conn c)) t k').
Proof.
  intros Hw Hc Hf Ht. unfold V1.Delete.
  rewrite (V1_ExecContext_runs _ _ _ _ _ Hc Hf (V1_parse_delete _ _ Hw)).
  cbn [V1.run]. rewrite (run_Delete _ _ _ _ Ht).
  cbn [fst snd V1.conn V1.set_conn tables out_tables].
  split; [reflexivity|]. split; [reflexivity|]. split.
  - unfold rows_of. rewrite lookup_insert_eq, list_filter_filter.
    clear Ht. induction rows as [|r rows IH]; [reflexivity|].
    rewrite filter_cons. destruct (decide _) as [[H1 H2]|_]; [congruence|].
    apply IH.
  - intros k' Hne. eapply rows_of_insert; [exact Ht|].
    by apply filter_deleted.
Qed.

Lemma V1_Delete_removes_witness :
  (V1.Delete v1Cache Background "never-written").1 = None
  /\ rows_of (tables (V1.conn (V1.Delete (V1.Put v1Cache Background "a" b1).2
                                         Background "a").2)) "certs" "a" = [].
Proof.
  destruct (V1_Delete_removes v1Cache Background "never-written" "certs" [])
    as (H1 & _);
    [reflexivity|reflexivity|reflexivity|vm_compute; reflexivity|].
  destruct (V1_Delete_removes (V1.Put v1Cache Background "a" b1).2
              Background "a" "certs" [("a", b1)]) as (_ & _ & H3 & _);
    [reflexivity|reflexivity|reflexivity|vm_compute; reflexivity|].
  split; [exact H1|exact H3].
Defined.

(** ** New of the first variant *)



(** ** Store failures in the first variant *)

Lemma V1_QueryRowContext_done db ctx q args e :
  ctx_Err ctx = Some e ->
  V1.QueryRowContext db ctx q args = (mkRow (inl e), log db q args).
Proof. intros H. unfold V1.QueryRowContext. by rewrite H. Qed.

Lemma V1_QueryRowContext_fault db ctx q args text fs :
  ctx_Err ctx = None -> faults db = Some text :: fs ->
  V1.QueryRowContext db ctx q args
  = (mkRow (inl (DriverError text)),
     mkDB (tables db) fs (rows_affected_err db) (calls db ++ [Call q args])).
Proof.
  intros Hc Hf. unfold V1.QueryRowContext, V1.dispatch, next_fault.
  rewrite Hc. cbn [faults log]. rewrite Hf. reflexivity.
Qed.

(** X17. The first variant passes store failures on and changes nothing.
    Under a done context every method returns ctx.Err(), and when the
    driver fails the call every method returns the driver's error; Get
    returns no payload and no ErrCacheMiss; the tables are as before. *)
Theorem V1_store_failure c ctx k v e :
  (ctx_Err ctx = Some e
   \/ exists text fs,
        ctx_Err ctx = None /\ faults (V1.conn c) = Some text :: fs
        /\ e = DriverError text) ->
  ((V1.Get c ctx k).1 = ([], Some e)
   /\ tables (V1.conn (V1.Get c ctx k).2) = tables (V1.conn c))
  /\ ((V1.Put c ctx k v).1 = Some e
      /\ tables (V1.conn (V1.Put c ctx k v).2) = tables (V1.conn c))
  /\ ((V1.Delete c ctx k).1 = Some e
      /\ tables (V1.conn (V1.Delete c ctx k).2) = tables (V1.conn c)).
Proof.
  intros [He|(text & fs & Hc & Hf & ->)].
  - unfold V1.Get, V1.Put, V1.Delete.
    rewrite (V1_QueryRowContext_done _ _ _ _ _ He),
      !(V1_ExecContext_done _ _ _ _ _ He).
    cbn. destruct ctx; cbn in He; try discriminate; injection He as <-;
      by repeat split.
  - unfold V1.Get, V1.Put, V1.Delete.
    rewrite (V1_QueryRowContext_fault _ _ _ _ _ _ Hc Hf),
      !(V1_ExecContext_fault _ _ _ _ _ _ Hc Hf).
    by repeat split.
Qed.

Lemma V1_store_failure_witness :
  (V1.Get v1Cache CtxCanceled "a").1 = ([], Some Canceled)
  /\ (V1.Put (V1.mkCache refusingDB "certs") Background "a" b1).1
     = Some (DriverError "connection refused").
Proof.
  destruct (V1_store_failure v1Cache CtxCanceled "a" b1 Canceled)
    as [[HG _] _]; [by left|].
  destruct (V1_store_failure (V1.mkCache refusingDB "certs") Background
              "a" b1 (DriverError "connection refused")) as (_ & [HP _] & _).
  { right. exists "connection refused", []. by repeat split. }
  split; [exact HG|exact HP].
Defined.

(** ** The two variants of Put *)


